(** * mstransfer: a shallow embedding of the transfer registry, the upload
    endpoint and the client batch driver, with their specifications.

    Sources embedded here:
    - [src/mstransfer/server/models.py]  : TransferState, TransferRecord,
                                           UploadResponse
    - [src/mstransfer/server/state.py]   : TransferRegistry
    - [src/mstransfer/server/routes.py]  : upload, transfer_status
    - [src/mstransfer/server/auth.py]    : APIKeyAuthProvider
    - [src/mstransfer/client/sender.py]  : resolve_inputs, _counting_generator,
                                           _file_chunk_generator, send_file,
                                           _poll_status, send_batch
    - [src/mstransfer/cli.py]            : parse_target, the summary of
                                           cmd_upload *)

From Stdlib Require Import ZArith Lia Ascii String Sorting.Sorted.
From stdpp Require Import base gmap strings list.

Open Scope Z_scope.

(* ------------------------------------------------------------------ *)
(** ** models.py *)

Inductive TransferState :=
| RECEIVING
| RECEIVED
| DECOMPRESSING
| DONE
| ERROR.

#[global] Instance TransferState_eq_dec : EqDecision TransferState.
Proof. solve_decision. Defined.

Definition is_terminal (s : TransferState) : bool :=
  match s with DONE | ERROR => true | _ => false end.

(** [created_at] is the wall-clock instant, as seconds. *)
Record TransferRecord := mkTransferRecord {
  transfer_id : string;
  filename : string;
  state : TransferState;
  bytes_received : Z;
  stored_as : string;
  error : option string;
  created_at : Z
}.

(** [TransferRecord(transfer_id=..., filename=...)] with the field
    defaults of the pydantic model. *)
Definition new_TransferRecord (tid fname : string) (now : Z) : TransferRecord :=
  {| transfer_id := tid; filename := fname; state := RECEIVING;
     bytes_received := 0; stored_as := ""; error := None;
     created_at := now |}.

Record UploadResponse := mkUploadResponse {
  ur_transfer_id : string;
  ur_filename : string;
  ur_stored_as : string;
  ur_state : TransferState;
  ur_bytes_received : Z
}.

(* ------------------------------------------------------------------ *)
(** ** state.py: TransferRegistry

    The registry is the dict [_records]; the lock only serialises the
    calls, each of which is one atomic step here. *)

Abbreviation Registry := (gmap string TransferRecord).

(** One keyword argument of [update(transfer_id, **kwargs)]; the endpoint
    only ever passes these four fields. *)
Inductive FieldUpdate :=
| SetState (s : TransferState)
| SetBytesReceived (n : Z)
| SetStoredAs (p : string)
| SetError (e : option string).

(** [setattr(record, key, value)] *)
Definition setattr (r : TransferRecord) (f : FieldUpdate) : TransferRecord :=
  match f with
  | SetState s =>
      {| transfer_id := transfer_id r; filename := filename r; state := s;
         bytes_received := bytes_received r; stored_as := stored_as r;
         error := error r; created_at := created_at r |}
  | SetBytesReceived n =>
      {| transfer_id := transfer_id r; filename := filename r; state := state r;
         bytes_received := n; stored_as := stored_as r;
         error := error r; created_at := created_at r |}
  | SetStoredAs p =>
      {| transfer_id := transfer_id r; filename := filename r; state := state r;
         bytes_received := bytes_received r; stored_as := p;
         error := error r; created_at := created_at r |}
  | SetError e =>
      {| transfer_id := transfer_id r; filename := filename r; state := state r;
         bytes_received := bytes_received r; stored_as := stored_as r;
         error := e; created_at := created_at r |}
  end.

(** [for key, value in kwargs.items(): setattr(record, key, value)] *)
Definition apply_kwargs (kws : list FieldUpdate) (r : TransferRecord) : TransferRecord :=
  fold_left setattr kws r.

(** [create]: builds a fresh record and stores it with
    [self._records[transfer_id] = record]. *)
Definition create (reg : Registry) (tid fname : string) (now : Z)
  : Registry * TransferRecord :=
  let record := new_TransferRecord tid fname now in
  (<[tid := record]> reg, record).

(** [get]: [self._records.get(transfer_id)] *)
Definition get (reg : Registry) (tid : string) : option TransferRecord :=
  reg !! tid.

(** [update] *)
Definition update (reg : Registry) (tid : string) (kws : list FieldUpdate)
  : Registry * option TransferRecord :=
  match reg !! tid with
  | None => (reg, None)
  | Some record =>
      let record' := apply_kwargs kws record in
      (<[tid := record']> reg, Some record')
  end.

(** [cleanup(max_age_seconds)] with [time.time()] reading [now]: the ids
    of the records in a terminal state whose age [now - created_at]
    exceeds the limit are collected in the dict's order, then deleted;
    their number is returned. *)
Definition cleanup (reg : Registry) (now max_age_seconds : Z) : Registry * nat :=
  let to_remove :=
    map fst (List.filter (fun '(tid, record) =>
                            is_terminal (state record)
                            && (max_age_seconds <? now - created_at record))
               (map_to_list reg)) in
  (fold_left (fun acc tid => delete tid acc) to_remove reg, length to_remove).

(* ------------------------------------------------------------------ *)
(** ** pathlib, as the upload endpoint uses it (POSIX flavour) *)

Module PyPath.

(** [s.split(sep)] *)
Fixpoint split_aux (sep : ascii) (s cur : string) : list string :=
  match s with
  | EmptyString => [cur]
  | String c rest =>
      if Ascii.eqb c sep then cur :: split_aux sep rest EmptyString
      else split_aux sep rest (cur +:+ String c EmptyString)
  end.

Definition split (sep : ascii) (s : string) : list string :=
  split_aux sep s EmptyString.

(** [PurePosixPath(s).parts] without the root: the components of [s]
    split on ["/"], with empty and ["."] components dropped. *)
Definition rel_parts (s : string) : list string :=
  List.filter (fun x => negb (String.eqb x "") && negb (String.eqb x "."))
         (split "/"%char s).

(** [PurePosixPath(s).name]: the last component, [""] when there is none
    (as for ["/"]). *)
Definition name (s : string) : string :=
  match last (rel_parts s) with
  | Some n => n
  | None => ""
  end.

(** [str.rfind(c)], with [None] for [-1]. *)
Fixpoint rfind_aux (c : ascii) (s : string) (i : nat) (acc : option nat) : option nat :=
  match s with
  | EmptyString => acc
  | String d rest => rfind_aux c rest (S i) (if Ascii.eqb d c then Some i else acc)
  end.

Definition rfind (c : ascii) (s : string) : option nat := rfind_aux c s 0 None.

(** [PurePath.stem] on a name:
    [i = name.rfind('.'); name[:i] if 0 < i < len(name) - 1 else name]. *)
Definition stem_of_name (n : string) : string :=
  match rfind "."%char n with
  | Some i =>
      if (0 <? i)%nat && (i <? String.length n - 1)%nat then substring 0 i n else n
  | None => n
  end.

(** [PurePath.suffix] on a name. *)
Definition suffix_of_name (n : string) : string :=
  match rfind "."%char n with
  | Some i =>
      if (0 <? i)%nat && (i <? String.length n - 1)%nat
      then substring i (String.length n - i) n else ""
  | None => ""
  end.

Definition stem (s : string) : string := stem_of_name (name s).
Definition suffix (s : string) : string := suffix_of_name (name s).

(** [str(Path(d) / n)] for a normalised directory string [d] and a
    relative name [n] without separators. *)
Definition join (d n : string) : string :=
  if String.eqb d "." then n
  else if String.eqb d "/" then d +:+ n
  else d +:+ "/" +:+ n.

End PyPath.

(* ------------------------------------------------------------------ *)
(** ** routes.py: the upload and status endpoints *)

(** The application state the routes read ([state.output_dir],
    [state.store_as], [state.transfers]) together with the part of the
    file system under the output directory, as a map from path strings to
    file contents. *)
Record Server := mkServer {
  output_dir : string;
  store_as : string;
  transfers : Registry;
  files : gmap string (list Byte.byte)
}.

Definition with_transfers (st : Server) (reg : Registry) : Server :=
  mkServer (output_dir st) (store_as st) reg (files st).

Definition with_files (st : Server) (reg : Registry) (fs : gmap string (list Byte.byte)) : Server :=
  mkServer (output_dir st) (store_as st) reg fs.

(** One step of [async for chunk in request.stream(): await f.write(chunk)]:
    a chunk that is read and written, or an exception raised by the read
    or by the write (client disconnect, disk error), with its [str]. *)
Inductive BodyEvent :=
| Chunk (c : list Byte.byte)
| StreamError (msg : string).

(** The request: [request.headers.get(...)] of the two headers and the
    body stream. *)
Record Request := mkRequest {
  hdr_transfer_id : option string;
  hdr_original_filename : option string;
  body : list BodyEvent
}.

(** What the outside world decides during one call: the clock read by
    [datetime.now], whether [aiofiles.open(msz_path, "wb")] raises, and the
    outcome of [MSZFile(...).decompress(...)] on the staged bytes (the
    [str] of the exception, or the produced mzML bytes). *)
Record Env := mkEnv {
  env_now : Z;
  env_open_error : option string;
  env_decompress : list Byte.byte -> string + list Byte.byte
}.

(** The outcome of the handler: an [HTTPException] or a returned model
    (serialised with status 200). *)
Inductive Response :=
| Raised (status : Z) (detail : string)
| Returned (u : UploadResponse).

Definition status_code (r : Response) : Z :=
  match r with
  | Raised c _ => c
  | Returned _ => 200
  end.

(** Python truthiness of a [headers.get] result: [None] and [""] are false. *)
Definition truthy (o : option string) : option string :=
  match o with
  | Some EmptyString | None => None
  | Some s => Some s
  end.

Definition update_every : Z := 64.

(** The end of the receive loop: the registry, the bytes the staging file
    holds, and either the byte count or the exception's message. *)
Inductive StreamOutcome :=
| StreamOk (reg : Registry) (content : list Byte.byte) (n : Z)
| StreamFailed (reg : Registry) (content : list Byte.byte) (msg : string).

(** The [async for] loop with its throttled registry updates. *)
Fixpoint receive_loop (reg : Registry) (tid : string) (content : list Byte.byte)
    (events : list BodyEvent) (bytes_received chunk_count : Z) : StreamOutcome :=
  match events with
  | [] => StreamOk reg content bytes_received
  | StreamError msg :: _ => StreamFailed reg content msg
  | Chunk c :: rest =>
      let content' := content ++ c in
      let bytes_received' := bytes_received + Z.of_nat (length c) in
      let chunk_count' := chunk_count + 1 in
      let reg' :=
        if chunk_count' mod update_every =? 0
        then fst (update reg tid [SetBytesReceived bytes_received'])
        else reg in
      receive_loop reg' tid content' rest bytes_received' chunk_count'
  end.

Definition response_of (final : TransferRecord) : UploadResponse :=
  {| ur_transfer_id := transfer_id final; ur_filename := filename final;
     ur_stored_as := stored_as final; ur_state := state final;
     ur_bytes_received := bytes_received final |}.

Definition staging_path (out original_filename : string) : string :=
  PyPath.join out (PyPath.stem original_filename +:+ ".msz").

Definition mzml_output_path (out original_filename : string) : string :=
  PyPath.join out (PyPath.stem original_filename +:+ ".mzML").

(** The tail of [upload] after the body was fully written: the
    [RECEIVED] transition, the [store_as] branch and the final [get]. *)
Definition finish_upload (st : Server) (env : Env) (reg : Registry)
    (fs : gmap string (list Byte.byte)) (tid original_filename : string)
    (content : list Byte.byte) (n : Z) : Server * Response :=
  let msz_path := staging_path (output_dir st) original_filename in
  let reg := fst (update reg tid [SetBytesReceived n]) in
  let reg := fst (update reg tid [SetState RECEIVED]) in
  let '(reg, fs) :=
    if String.eqb (store_as st) "msz" then
      (fst (update reg tid [SetState DONE; SetStoredAs msz_path; SetBytesReceived n]), fs)
    else if String.eqb (store_as st) "mzml" then
      let reg := fst (update reg tid [SetState DECOMPRESSING]) in
      let mzml_path := mzml_output_path (output_dir st) original_filename in
      match env_decompress env content with
      | inr out =>
          (fst (update reg tid [SetState DONE; SetStoredAs mzml_path; SetBytesReceived n]),
           delete msz_path (<[mzml_path := out]> fs))
      | inl msg =>
          (fst (update reg tid [SetState ERROR; SetError (Some msg)]), fs)
      end
    else (reg, fs) in
  let st' := with_files st reg fs in
  match get reg tid with
  | None => (st', Raised 500 "Unexpected error: transfer record missing after processing")
  | Some final => (st', Returned (response_of final))
  end.

(** [upload] *)
Definition upload (st : Server) (env : Env) (req : Request) : Server * Response :=
  match truthy (hdr_transfer_id req) with
  | None => (st, Raised 400 "Missing X-Transfer-ID header")
  | Some tid =>
  match truthy (hdr_original_filename req) with
  | None => (st, Raised 400 "Missing X-Original-Filename header")
  | Some original_filename =>
      let reg := fst (create (transfers st) tid original_filename (env_now env)) in
      let msz_path := staging_path (output_dir st) original_filename in
      match env_open_error env with
      | Some msg =>
          let reg := fst (update reg tid [SetState ERROR; SetError (Some msg)]) in
          (with_transfers st reg, Raised 500 ("Error receiving data: " +:+ msg))
      | None =>
          match receive_loop reg tid [] (body req) 0 0 with
          | StreamFailed reg content msg =>
              let reg := fst (update reg tid [SetState ERROR; SetError (Some msg)]) in
              (with_files st reg (<[msz_path := content]> (files st)),
               Raised 500 ("Error receiving data: " +:+ msg))
          | StreamOk reg content n =>
              finish_upload st env reg (<[msz_path := content]> (files st))
                tid original_filename content n
          end
      end
  end
  end.

(** [transfer_status] *)
Definition transfer_status (st : Server) (tid : string) : Z * option TransferRecord :=
  match get (transfers st) tid with
  | None => (404, None)
  | Some r => (200, Some r)
  end.

(* ------------------------------------------------------------------ *)
(** ** sender.py: resolve_inputs *)

Module Resolve.

(** The file system seen by [Path.is_file], [Path.is_dir], [glob] and
    [rglob]: every existing entry, keyed by its path components. *)
Inductive Kind := IsFile | IsDir.

Abbreviation Fs := (gmap (list string) Kind).

(** A [Path], as its list of components. *)
Abbreviation PathT := (list string).

(** [str.lower()] on ASCII text. *)
Definition lower_char (c : ascii) : ascii :=
  let n := nat_of_ascii c in
  if (65 <=? n)%nat && (n <=? 90)%nat then ascii_of_nat (n + 32) else c.

Fixpoint lower (s : string) : string :=
  match s with
  | EmptyString => EmptyString
  | String c rest => String (lower_char c) (lower rest)
  end.

Definition ends_with (suf s : string) : bool :=
  (String.length suf <=? String.length s)%nat &&
  String.eqb (substring (String.length s - String.length suf) (String.length suf) s) suf.

Definition VALID_EXTENSIONS : list string := [".mzml"; ".msz"; ".mszx"].

Definition in_list (x : string) (l : list string) : bool :=
  existsb (String.eqb x) l.

(** The patterns of the directory branch, ["*.mzML"], ["*.msz"],
    ["*.mzml"], ["*.MSZ"], each as the suffix after its star. On POSIX
    [Path.glob] matches case-sensitively, and a star matches any run of
    characters. *)
Definition dir_patterns : list string := [".mzML"; ".msz"; ".mzml"; ".MSZ"].

Definition last_name (p : PathT) : string :=
  match last p with Some n => n | None => "" end.

Fixpoint strip_prefix (pre l : PathT) : option PathT :=
  match pre, l with
  | [], _ => Some l
  | x :: pre', y :: l' => if String.eqb x y then strip_prefix pre' l' else None
  | _ :: _, [] => None
  end.

Definition entries (fs : Fs) : list PathT := map fst (map_to_list fs).

(** [path.glob("*" + ext)]: the entries directly inside [dir]. *)
Definition glob (fs : Fs) (dir : PathT) (ext : string) : list PathT :=
  List.filter (fun p => match strip_prefix dir p with
                   | Some [n] => ends_with ext n
                   | _ => false
                   end) (entries fs).

(** [path.rglob("*" + ext)]: the entries at any depth below [dir]. *)
Definition rglob (fs : Fs) (dir : PathT) (ext : string) : list PathT :=
  List.filter (fun p => match strip_prefix dir p with
                   | Some (_ :: _) => ends_with ext (last_name p)
                   | _ => false
                   end) (entries fs).

(** [list(dict.fromkeys(result))] *)
Definition dedup (l : list PathT) : list PathT :=
  fold_left (fun acc x => if bool_decide (x ∈ acc) then acc else acc ++ [x]) l [].

Fixpoint path_ltb (p q : PathT) : bool :=
  match p, q with
  | [], [] => false
  | [], _ :: _ => true
  | _ :: _, [] => false
  | x :: p', y :: q' =>
      match String.compare x y with
      | Lt => true
      | Gt => false
      | Eq => path_ltb p' q'
      end
  end.

Fixpoint insert_sorted (x : PathT) (l : list PathT) : list PathT :=
  match l with
  | [] => [x]
  | y :: l' => if path_ltb y x then y :: insert_sorted x l' else x :: l
  end.

(** [sorted(...)] by the component-wise order of [PurePosixPath]. *)
Definition sort (l : list PathT) : list PathT := fold_right insert_sorted [] l.

(** The body of [for p in paths:] *)
Definition resolve_one (fs : Fs) (recursive : bool) (result : list PathT) (p : string)
  : list PathT :=
  let path := PyPath.rel_parts p in
  match fs !! path with
  | Some IsFile =>
      if in_list (lower (PyPath.suffix_of_name (last_name path))) VALID_EXTENSIONS
      then result ++ [path] else result
  | Some IsDir =>
      let result :=
        fold_left (fun acc ext =>
                     acc ++ (if recursive then rglob fs path ext else glob fs path ext))
                  dir_patterns result in
      dedup result
  | None => result
  end.

(** [resolve_inputs]: [None] is the [FileNotFoundError] raised when no
    input is eligible. *)
Definition resolve_inputs (fs : Fs) (paths : list string) (recursive : bool)
  : option (list PathT) :=
  let result := fold_left (resolve_one fs recursive) paths [] in
  match result with
  | [] => None
  | _ => Some (sort (dedup result))
  end.

End Resolve.

(* ------------------------------------------------------------------ *)
(** ** sender.py: _poll_status *)

Module Poll.

(** One iteration of [while time.monotonic() < deadline:] as the outside
    world plays it: the clock at the loop test, the status code and the
    record fields of the GET response, and the clock when the response has
    been read (where [deadline = time.monotonic() + timeout] is evaluated).
    When the loop test fails, the other fields are not looked at. *)
Record PollObs := mkPollObs {
  po_check : Z;
  po_status : Z;
  po_state : TransferState;
  po_bytes : Z;
  po_after : Z
}.

(** [return record.state], [raise TimeoutError], or the end of the
    iterations the trace describes while still polling. *)
Inductive PollResult :=
| PollReturned (s : TransferState)
| PollTimeout
| PollPending.

(** [record.state != last_state or record.bytes_received > last_bytes] *)
Definition progressed (last_state : option TransferState) (last_bytes : Z)
    (o : PollObs) : bool :=
  negb (bool_decide (Some (po_state o) = last_state)) || (last_bytes <? po_bytes o).

Fixpoint poll_loop (timeout deadline : Z) (last_state : option TransferState)
    (last_bytes : Z) (trace : list PollObs) : PollResult :=
  match trace with
  | [] => PollPending
  | o :: rest =>
      if po_check o <? deadline then
        if po_status o =? 200 then
          if is_terminal (po_state o) then PollReturned (po_state o)
          else if progressed last_state last_bytes o
          then poll_loop timeout (po_after o + timeout) (Some (po_state o)) (po_bytes o) rest
          else poll_loop timeout deadline last_state last_bytes rest
        else poll_loop timeout deadline last_state last_bytes rest
      else PollTimeout
  end.

(** [_poll_status], started at clock [t0]: [deadline = t0 + timeout],
    [last_state = None], [last_bytes = 0]. *)
Definition poll_status (t0 timeout : Z) (trace : list PollObs) : PollResult :=
  poll_loop timeout (t0 + timeout) None 0 trace.

(** The progress the poller has recorded after a run of observations,
    deadlines aside: the recorded state and byte count, and the clock of
    the last progress observation ([t0] before any). *)
Definition scan_step (acc : option TransferState * Z * Z) (o : PollObs)
  : option TransferState * Z * Z :=
  let '(ls, lb, tl) := acc in
  if (po_status o =? 200) && negb (is_terminal (po_state o)) && progressed ls lb o
  then (Some (po_state o), po_bytes o, po_after o)
  else acc.

Definition scan (acc : option TransferState * Z * Z) (trace : list PollObs)
  : option TransferState * Z * Z :=
  fold_left scan_step trace acc.

(** The clock of the last observed progress before iteration [k]. *)
Definition last_progress_from (acc : option TransferState * Z * Z)
    (trace : list PollObs) (k : nat) : Z :=
  (scan acc (take k trace)).2.

Definition last_progress (t0 : Z) (trace : list PollObs) (k : nat) : Z :=
  last_progress_from (None, 0, t0) trace k.

(** A 200 answer in a terminal state. *)
Definition terminal_answer (o : PollObs) : bool :=
  (po_status o =? 200) && is_terminal (po_state o).

(** Iterations before [k] all pass the loop test and none of them is a
    terminal answer. *)
Definition runs_through (T : Z) (acc : option TransferState * Z * Z)
    (trace : list PollObs) (k : nat) : Prop :=
  forall j oj, (j < k)%nat -> trace !! j = Some oj ->
    po_check oj < last_progress_from acc trace j + T /\ terminal_answer oj = false.

End Poll.

(* ------------------------------------------------------------------ *)
(** ** sender.py: send_batch *)

Module Batch.

Record FileResult := mkFileResult {
  fr_filename : string;
  fr_response : option UploadResponse;
  fr_error : option string
}.

(** What the outside world decides: [fpath.stat().st_size] (or the
    [str] of the [OSError] it raises), the outcome of [send_file] for each
    submitted index (the [str] of its exception or its response), and the
    order in which [as_completed] yields the submitted futures, each given
    by its [(idx, fpath)] entry of the [futures] dict. *)
Record BatchEnv := mkBatchEnv {
  be_stat : string -> string + Z;
  be_send : nat -> string + UploadResponse;
  be_as_completed : list (nat * string) -> list (nat * string)
}.

Inductive BatchOutcome :=
| BatchRaised (msg : string)
| BatchReturned (results : list FileResult).

(** [ThreadPoolExecutor.__init__]: [max_workers <= 0] raises. *)
Definition pool_ok (max_workers : Z) : string + unit :=
  if max_workers <=? 0 then inl "max_workers must be greater than 0" else inr tt.

(** The submission loop: for each [(idx, fpath)], the [stat] of a [.msz]
    file (which may raise) and [pool.submit]; returns the [futures]
    entries in submission order. *)
Fixpoint submit_all (env : BatchEnv) (idx : nat) (file_paths : list string)
  : string + list (nat * string) :=
  match file_paths with
  | [] => inr []
  | fpath :: rest =>
      let is_msz := String.eqb (Resolve.lower (PyPath.suffix fpath)) ".msz" in
      match (if is_msz then be_stat env fpath else inr 0) with
      | inl msg => inl msg
      | inr _ =>
          match submit_all env (S idx) rest with
          | inl msg => inl msg
          | inr fs => inr ((idx, fpath) :: fs)
          end
      end
  end.

(** One pass of [for future in as_completed(futures):] *)
Definition collect (env : BatchEnv) (entry : nat * string) : FileResult :=
  let '(idx, fpath) := entry in
  match be_send env idx with
  | inr result => mkFileResult (PyPath.name fpath) (Some result) None
  | inl msg => mkFileResult (PyPath.name fpath) None (Some msg)
  end.

(** [send_batch] (the progress listener only observes, and is left out). *)
Definition send_batch (file_paths : list string) (parallel : Z) (env : BatchEnv)
  : BatchOutcome :=
  let workers := Z.min parallel (Z.of_nat (length file_paths)) in
  match pool_ok workers with
  | inl msg => BatchRaised msg
  | inr _ =>
      match submit_all env 0 file_paths with
      | inl msg => BatchRaised msg
      | inr futures => BatchReturned (map (collect env) (be_as_completed env futures))
      end
  end.

End Batch.

(* ------------------------------------------------------------------ *)
(** ** sender.py: _counting_generator and _file_chunk_generator *)

Module Chunks.

(** What a consumer of the generators observes, in order: a call of the
    progress callback with a byte count, or a yielded chunk. *)
Inductive GenEvent :=
| Progress (n : Z)
| Yield (chunk : list Byte.byte).

(** One chunk: [if callback: callback(len(chunk))], then [yield chunk]. *)
Definition emit (has_callback : bool) (chunk : list Byte.byte) : list GenEvent :=
  (if has_callback then [Progress (Z.of_nat (length chunk))] else []) ++ [Yield chunk].

(** [_counting_generator(iterator, callback)] *)
Definition counting_generator (chunks : list (list Byte.byte)) (has_callback : bool)
  : list GenEvent :=
  flat_map (emit has_callback) chunks.

(** [f.read(n)] on a file opened with ["rb"] whose unread bytes are
    [rest]: up to [n] bytes, everything left when [n] is negative. *)
Definition read (rest : list Byte.byte) (n : Z) : list Byte.byte * list Byte.byte :=
  if n <? 0 then (rest, []) else (firstn (Z.to_nat n) rest, skipn (Z.to_nat n) rest).

(** The [while True:] loop, with [fuel] bounding its iterations. *)
Fixpoint chunk_loop (fuel : nat) (rest : list Byte.byte) (chunk_size : Z)
    (has_callback : bool) : list GenEvent :=
  match fuel with
  | O => []
  | S fuel' =>
      let '(chunk, rest') := read rest chunk_size in
      match chunk with
      | [] => []
      | _ :: _ => emit has_callback chunk ++ chunk_loop fuel' rest' chunk_size has_callback
      end
  end.

(** [_file_chunk_generator(file_path, chunk_size, callback)] on a file
    holding [content]. Every read that does not end the loop consumes at
    least one byte, so [length content + 1] iterations reach the end. *)
Definition file_chunk_generator (content : list Byte.byte) (chunk_size : Z)
    (has_callback : bool) : list GenEvent :=
  chunk_loop (S (length content)) content chunk_size has_callback.

(** The chunks the generator yields, and the sum of the counts it passes
    to the callback. *)
Definition yielded (evs : list GenEvent) : list (list Byte.byte) :=
  flat_map (fun e => match e with Yield c => [c] | Progress _ => [] end) evs.

Definition progress_total (evs : list GenEvent) : Z :=
  fold_right (fun e acc => match e with Progress n => n + acc | Yield _ => acc end) 0 evs.

End Chunks.

(* ------------------------------------------------------------------ *)
(** ** sender.py: send_file *)

Module Send.

Definition VALID_FORMATS : list string := ["mzML"; "msz"; "mszx"].

(** What the outside world decides during one call: the answer of
    [detect_filetype], the bytes of the file, the chunks of
    [MZMLFile(...).compress_stream(chunk_size)], the outcome of the POST
    given the chunks of its body (the [str] of an exception of [post],
    [raise_for_status] or [model_validate], or the validated response),
    and the clock and status answers seen by [_poll_status]. *)
Record SendEnv := mkSendEnv {
  se_filetype : string;
  se_file : list Byte.byte;
  se_compressed : list (list Byte.byte);
  se_post : list (list Byte.byte) -> string + UploadResponse;
  se_poll_t0 : Z;
  se_poll_trace : list Poll.PollObs
}.

(** [send_file] returns a response or raises; [SendTimedOut] is the
    [TimeoutError] of [_poll_status], [SendPolling] the end of the status
    answers the environment describes while still polling. *)
Inductive SendOutcome :=
| SendRaised (msg : string)
| SendTimedOut
| SendReturned (r : UploadResponse)
| SendPolling.

(** [upload_result.state = state] *)
Definition set_ur_state (u : UploadResponse) (s : TransferState) : UploadResponse :=
  mkUploadResponse (ur_transfer_id u) (ur_filename u) (ur_stored_as u) s (ur_bytes_received u).

(** [send_file(file_path, base_url, progress_callback, timeout, chunk_size)]
    with a progress callback, as [send_batch] passes one. *)
Definition send_file (file_path : string) (timeout chunk_size : Z) (env : SendEnv)
  : SendOutcome :=
  let filetype := se_filetype env in
  if negb (Resolve.in_list filetype VALID_FORMATS) then
    SendRaised ("Unsupported file type for " +:+ file_path +:+ ": " +:+ filetype)
  else
  let stream :=
    if String.eqb filetype "mzML" then
      Some (Chunks.counting_generator (se_compressed env) true)
    else if String.eqb filetype "msz" || String.eqb filetype "mszx" then
      Some (Chunks.file_chunk_generator (se_file env) chunk_size true)
    else None in
  match stream with
  | None => SendRaised ("Unsupported file type: " +:+ filetype +:+ " for " +:+ file_path)
  | Some evs =>
      match se_post env (Chunks.yielded evs) with
      | inl msg => SendRaised msg
      | inr upload_result =>
          if is_terminal (ur_state upload_result) then SendReturned upload_result
          else
            match Poll.poll_status (se_poll_t0 env) timeout (se_poll_trace env) with
            | Poll.PollReturned s => SendReturned (set_ur_state upload_result s)
            | Poll.PollTimeout => SendTimedOut
            | Poll.PollPending => SendPolling
            end
      end
  end.

End Send.

(* ------------------------------------------------------------------ *)
(** ** auth.py: APIKeyAuthProvider *)

Module Auth.

(** [str.isascii()]. Header values reach the provider decoded as
    Latin-1, so each character is one of the 256 of [ascii]. *)
Definition is_ascii (s : string) : bool :=
  forallb (fun c => (nat_of_ascii c <? 128)%nat) (list_ascii_of_string s).

(** [hmac.compare_digest(a, b)] on two [str]: a [TypeError] when either
    holds a non-ASCII character, else whether they are equal. *)
Definition compare_digest (a b : string) : string + bool :=
  if is_ascii a && is_ascii b then inr (String.eqb a b)
  else inl "comparing strings with non-ASCII characters is not supported".

(** [s.removeprefix(p)] *)
Definition removeprefix (p s : string) : string :=
  if String.prefix p s
  then substring (String.length p) (String.length s - String.length p) s
  else s.

(** The provider returns an [AuthContext] with an identity, raises an
    [HTTPException], or lets the [TypeError] of [compare_digest] escape. *)
Inductive AuthOutcome :=
| Authenticated (identity : string)
| AuthRaised (status : Z) (detail : string)
| AuthTypeError (msg : string).

(** [APIKeyAuthProvider(api_key).authenticate(request)], given
    [request.headers.get("Authorization")] and
    [request.query_params.get("api_key")]. *)
Definition authenticate (api_key : string) (authorization query_key : option string)
  : AuthOutcome :=
  let auth_header := default "" authorization in
  let from_header :=
    if String.prefix "Bearer " auth_header then
      match compare_digest (removeprefix "Bearer " auth_header) api_key with
      | inl msg => Some (AuthTypeError msg)
      | inr true => Some (Authenticated "api-key")
      | inr false => None
      end
    else None in
  match from_header with
  | Some o => o
  | None =>
      match query_key with
      | Some q =>
          match compare_digest q api_key with
          | inl msg => AuthTypeError msg
          | inr true => Authenticated "api-key"
          | inr false => AuthRaised 401 "Invalid or missing API key"
          end
      | None => AuthRaised 401 "Invalid or missing API key"
      end
  end.

End Auth.

(* ------------------------------------------------------------------ *)
(** ** cli.py: parse_target and the summary of cmd_upload *)

Module Cli.

(** [str.rstrip("/")] *)
Fixpoint rstrip_slash (s : string) : string :=
  match s with
  | EmptyString => EmptyString
  | String c rest =>
      let r := rstrip_slash rest in
      if Ascii.eqb c "/" && String.eqb r "" then EmptyString else String c r
  end.

(** [Py_ISSPACE]: space, [\t], [\n], [\v], [\f], [\r]. *)
Definition py_isspace (c : ascii) : bool :=
  let n := nat_of_ascii c in (n =? 32)%nat || ((9 <=? n)%nat && (n <=? 13)%nat).

(** [_PyUnicode_TransformDecimalAndSpaceToASCII] on characters below 256:
    the non-ASCII spaces U+0085 and U+00A0 become [" "]. The other
    non-ASCII characters become ['?'] there and are rejected by the
    parser below as any other non-digit is; none of them is a decimal
    digit. *)
Definition int_norm_char (c : ascii) : ascii :=
  let n := nat_of_ascii c in
  if (n =? 133)%nat || (n =? 160)%nat then " "%char else c.

Fixpoint map_chars (f : ascii -> ascii) (s : string) : string :=
  match s with
  | EmptyString => EmptyString
  | String c rest => String (f c) (map_chars f rest)
  end.

Fixpoint lstrip_space (s : string) : string :=
  match s with
  | String c rest => if py_isspace c then lstrip_space rest else s
  | EmptyString => EmptyString
  end.

Fixpoint all_space (s : string) : bool :=
  match s with
  | String c rest => py_isspace c && all_space rest
  | EmptyString => true
  end.

Definition digit_value (c : ascii) : option Z :=
  let n := nat_of_ascii c in
  if (48 <=? n)%nat && (n <=? 57)%nat then Some (Z.of_nat n - 48) else None.

(** The digit loop of [long_from_string_base]: digits, with single
    underscores between them. Returns the value, the number of digits and
    the unread rest. *)
Fixpoint scan_digits (s : string) (v : Z) (nd : nat) (prev_us : bool)
  : option (Z * nat * string) :=
  match s with
  | EmptyString => if prev_us then None else Some (v, nd, EmptyString)
  | String c rest =>
      match digit_value c with
      | Some d => scan_digits rest (10 * v + d) (S nd) false
      | None =>
          if Ascii.eqb c "_" then (if prev_us then None else scan_digits rest v nd true)
          else if prev_us then None else Some (v, nd, s)
      end
  end.

(** [sys.get_int_max_str_digits()] at its default. *)
Definition int_max_str_digits : nat := 4300.

(** [int(s)] for a [str] [s]; [None] is the [ValueError]. *)
Definition py_int (s : string) : option Z :=
  let s := lstrip_space (map_chars int_norm_char s) in
  let '(sign, s) :=
    match s with
    | String "+"%char r => (1, r)
    | String "-"%char r => (-1, r)
    | _ => (1, s)
    end in
  match s with
  | String "_"%char _ => None
  | _ =>
      match scan_digits s 0 0 false with
      | Some (v, nd, rest) =>
          if (nd =? 0)%nat || (int_max_str_digits <? nd)%nat || negb (all_space rest)
          then None else Some (sign * v)
      | None => None
      end
  end.

Definition digit_char (d : Z) : ascii := ascii_of_nat (48 + Z.to_nat d).

(** The decimal digits of [n >= 0], before [acc]; [fuel] bounds the
    number of digits. *)
Fixpoint str_digits (fuel : nat) (n : Z) (acc : string) : string :=
  match fuel with
  | O => acc
  | S f =>
      let acc := String (digit_char (n mod 10)) acc in
      if n <? 10 then acc else str_digits f (n / 10) acc
  end.

(** [str(n)] for an [int] [n]: a number below [2 ^ (k + 1)] has at most
    [k + 1] decimal digits. *)
Definition str_int (z : Z) : string :=
  if z <? 0 then "-" +:+ str_digits (S (Z.to_nat (Z.log2 (- z)))) (- z) EmptyString
  else str_digits (S (Z.to_nat (Z.log2 z))) z EmptyString.

(** [parse_target] returns a base URL or ends the process with
    [sys.exit(1)]. *)
Inductive TargetOutcome :=
| TargetUrl (url : string)
| TargetExit (code : Z).

Definition default_port : Z := 1319.

(** [parse_target(target)]; [target.rsplit(":", 1)] splits at the last
    colon. *)
Definition parse_target (target : string) : TargetOutcome :=
  if String.prefix "http://" target || String.prefix "https://" target then
    TargetUrl (rstrip_slash target)
  else
    match PyPath.rfind ":"%char target with
    | Some i =>
        let host := substring 0 i target in
        let port_str := substring (S i) (String.length target - S i) target in
        match py_int port_str with
        | Some port => TargetUrl ("http://" +:+ host +:+ ":" +:+ str_int port)
        | None => TargetExit 1
        end
    | None => TargetUrl ("http://" +:+ target +:+ ":" +:+ str_int default_port)
    end.

(** [TransferState(...).value] *)
Definition state_value (s : TransferState) : string :=
  match s with
  | RECEIVING => "receiving"
  | RECEIVED => "received"
  | DECOMPRESSING => "decompressing"
  | DONE => "done"
  | ERROR => "error"
  end.

(** [r.response and r.response.state == TransferState.DONE] *)
Definition succeeded (r : Batch.FileResult) : bool :=
  match Batch.fr_response r with
  | Some u => bool_decide (ur_state u = DONE)
  | None => false
  end.

(** [r.error or (str(r.response.state.value) if r.response else "unknown")] *)
Definition failure_reason (r : Batch.FileResult) : string :=
  match Batch.fr_error r with
  | Some (String c rest) => String c rest
  | _ =>
      match Batch.fr_response r with
      | Some u => state_value (ur_state u)
      | None => "unknown"
      end
  end.

(** What the end of [cmd_upload] prints: all succeeded, or the counts
    and one [(filename, reason)] line per failed file. *)
Inductive UploadReport :=
| AllTransferred (ok : nat)
| SomeFailed (ok fail : nat) (failures : list (string * string)).

Definition report (results : list Batch.FileResult) : UploadReport :=
  let ok := length (List.filter succeeded results) in
  let fail := (length results - ok)%nat in
  if (fail =? 0)%nat then AllTransferred ok
  else SomeFailed ok fail
         (map (fun r => (Batch.fr_filename r, failure_reason r))
              (List.filter (fun r => negb (succeeded r)) results)).

End Cli.

(* ------------------------------------------------------------------ *)
(** ** Concrete inputs used by the witnesses and counterexamples *)

Module Fixtures.

Definition done_record : TransferRecord :=
  {| transfer_id := "t"; filename := "a.msz"; state := DONE;
     bytes_received := 10; stored_as := "out/a.msz"; error := None;
     created_at := 0 |}.

Definition reg_done : Registry := {[ "t" := done_record ]}.

(** [decompress] succeeding with the staged bytes as its output, and
    failing on every input. *)
Definition env_ok : Env := mkEnv 5 None (fun c => inr c).
Definition env_bad_msz : Env := mkEnv 5 None (fun _ => inl "invalid msz file").

Definition body_12 : list (list Byte.byte) := [[Byte.x01]; [Byte.x02]].

Definition req_t (fname : string) (cs : list (list Byte.byte)) : Request :=
  mkRequest (Some "t") (Some fname) (map Chunk cs).

Definition server (mode : string) (reg : Registry) : Server :=
  mkServer "out" mode reg {[ "out/test.msz" := [Byte.x09; Byte.x09] ]}.

(** A directory [d] holding an [.msz] file and an [.mszx] file. *)
Definition fs_d : Resolve.Fs :=
  {[ ["d"] := Resolve.IsDir;
     ["d"; "a.msz"] := Resolve.IsFile;
     ["d"; "x.mszx"] := Resolve.IsFile ]}.

Definition upload_done : UploadResponse :=
  mkUploadResponse "id" "f" "out/f.msz" DONE 1.

(** Every file 100 bytes, every send succeeding, and the futures
    completing in reverse submission order (the first file is the
    largest). *)
Definition batch_env_rev : Batch.BatchEnv :=
  Batch.mkBatchEnv (fun _ => inr 100) (fun _ => inr upload_done) (fun l => rev l).

(** Status answers whose byte count drops from 10 to 5 and then rises to
    7, polled with [timeout = 10] from clock 0. *)
Definition trace_regress : list Poll.PollObs :=
  [Poll.mkPollObs 0 200 RECEIVED 10 0;
   Poll.mkPollObs 1 200 RECEIVED 5 1;
   Poll.mkPollObs 2 200 RECEIVED 7 2;
   Poll.mkPollObs 11 200 DONE 7 11].

(** A POST whose answer reports the number of bytes of the body. *)
Definition post_total (body : list (list Byte.byte)) : string + UploadResponse :=
  inr (mkUploadResponse "id" "a.msz" "out/a.msz" DONE (Z.of_nat (length (concat body)))).

(** An msz upload answered in [received], then polled to [done]. *)
Definition env_received : Send.SendEnv :=
  Send.mkSendEnv "msz" [Byte.x01; Byte.x02] []
    (fun body => inr (mkUploadResponse "id" "a.msz" "out/a.msz" RECEIVED 2)) 0
    [Poll.mkPollObs 1 200 DONE 2 1].

End Fixtures.

(* ------------------------------------------------------------------ *)
(** ** Auxiliary notions used in the statements *)

(** The state an update list leaves, when it sets one. *)
Fixpoint last_set_state (kws : list FieldUpdate) : option TransferState :=
  match kws with
  | [] => None
  | SetState s :: rest => match last_set_state rest with None => Some s | o => o end
  | _ :: rest => last_set_state rest
  end.

(** The record [finish_upload] leaves, by [store_as] mode. *)
Definition finish_state (st : Server) (env : Env) (content : list Byte.byte) : TransferState :=
  if String.eqb (store_as st) "msz" then DONE
  else if String.eqb (store_as st) "mzml" then
    match env_decompress env content with inr _ => DONE | inl _ => ERROR end
  else RECEIVED.

(** [c in s] *)
Fixpoint has_char (c : ascii) (s : string) : bool :=
  match s with
  | EmptyString => false
  | String d rest => Ascii.eqb d c || has_char c rest
  end.

(** A name that [Path] joins as one entry of the directory: no separator,
    not empty, not ["."] or [".."]. *)
Definition single_component (n : string) : bool :=
  negb (has_char "/"%char n) && negb (String.eqb n "")
  && negb (String.eqb n ".") && negb (String.eqb n "..").

(* ------------------------------------------------------------------ *)
(** ** Auxiliary notions of the further properties *)

(** The registry a run of the receive loop leaves, failed or not. *)
Definition stream_reg (o : StreamOutcome) : Registry :=
  match o with StreamOk reg _ _ | StreamFailed reg _ _ => reg end.

(** The strict order [sorted] puts the resolved paths in. *)
Definition path_lt (p q : Resolve.PathT) : Prop := Resolve.path_ltb p q = true.

(** A string of decimal digits only. *)
Definition all_digits (s : string) : bool :=
  forallb (fun c => match Cli.digit_value c with Some _ => true | None => false end)
          (list_ascii_of_string s).

(** [k] slashes. *)
Definition slashes (k : nat) : string := string_of_list_ascii (repeat "/"%char k).

(* ================================================================== *)
(** * Theorems *)

Lemma apply_kwargs_state (kws : list FieldUpdate) :
  forall r, state (apply_kwargs kws r) = default (state r) (last_set_state kws).
Proof.
  induction kws as [|f kws IH]; intros r; [reflexivity|].
  unfold apply_kwargs in *. simpl. rewrite IH.
  destruct f; simpl; try reflexivity.
  destruct (last_set_state kws); reflexivity.
Qed.

Lemma update_lookup_Some (reg : Registry) (tid : string) (r : TransferRecord)
    (kws : list FieldUpdate) :
  reg !! tid = Some r ->
  fst (update reg tid kws) !! tid = Some (apply_kwargs kws r).
Proof. intros H. unfold update. rewrite H. simpl. apply lookup_insert_eq. Qed.

Lemma update_snd_Some (reg : Registry) (tid : string) (r : TransferRecord)
    (kws : list FieldUpdate) :
  reg !! tid = Some r -> snd (update reg tid kws) = Some (apply_kwargs kws r).
Proof. intros H. unfold update. rewrite H. reflexivity. Qed.

Lemma create_lookup (reg : Registry) (tid fname : string) (now : Z) :
  fst (create reg tid fname now) !! tid = Some (new_TransferRecord tid fname now).
Proof. apply lookup_insert_eq. Qed.

Lemma finish_upload_not_409 st env reg fs tid fname content n :
  status_code (snd (finish_upload st env reg fs tid fname content n)) <> 409.
Proof.
  unfold finish_upload.
  destruct (String.eqb (store_as st) "msz");
    [| destruct (String.eqb (store_as st) "mzml");
       [destruct (env_decompress env content)|]];
    simpl; destruct (get _ tid); simpl; discriminate.
Qed.

(** The upload endpoint answers 400, 500 or 200, never 409. *)
Lemma upload_never_409 (st : Server) (env : Env) (req : Request) :
  status_code (snd (upload st env req)) <> 409.
Proof.
  unfold upload.
  destruct (truthy (hdr_transfer_id req)) as [tid|]; [|simpl; discriminate].
  destruct (truthy (hdr_original_filename req)) as [fname|]; [|simpl; discriminate].
  destruct (env_open_error env); [simpl; discriminate|].
  destruct (receive_loop _ _ _ _ _ _); [apply finish_upload_not_409|simpl; discriminate].
Qed.

(** ** C1 *)

(** C1 (counterexample): with a [done] record under ["t"], [create("t", ...)]
    replaces it, and an upload carrying [X-Transfer-ID: t] is answered 200,
    not 409. *)
Lemma C1_create_replaces_existing :
  get (fst (create Fixtures.reg_done "t" "b.msz" 5)) "t" <> get Fixtures.reg_done "t" /\
  status_code (snd (upload (Fixtures.server "msz" Fixtures.reg_done) Fixtures.env_ok
                      (Fixtures.req_t "b.msz" Fixtures.body_12))) = 200.
Proof. split; [vm_compute; discriminate | reflexivity]. Qed.

(** C1 (amended): [create(t, filename)] always stores a fresh record
    [(t, filename, receiving, 0 bytes, stored_as "", no error)] under [t],
    replacing any record already there, and returns it; the upload
    endpoint never answers 409, whatever the registry holds. *)
Theorem create_replaces_and_upload_never_409 (reg : Registry) (tid fname : string)
    (now : Z) :
  create reg tid fname now
    = (<[tid := new_TransferRecord tid fname now]> reg, new_TransferRecord tid fname now) /\
  get (fst (create reg tid fname now)) tid = Some (new_TransferRecord tid fname now) /\
  state (new_TransferRecord tid fname now) = RECEIVING /\
  (forall (st : Server) (env : Env) (req : Request),
     status_code (snd (upload st env req)) <> 409).
Proof.
  split; [reflexivity|]. split; [apply create_lookup|].
  split; [reflexivity|]. apply upload_never_409.
Qed.

(** ** C3 *)

(** C3 (counterexample): [update("t", state=RECEIVING)] on a [done]
    record moves it back to [receiving]. *)
Lemma C3_update_leaves_terminal_state :
  option_map state (get Fixtures.reg_done "t") = Some DONE /\
  option_map state (get (fst (update Fixtures.reg_done "t" [SetState RECEIVING])) "t")
    = Some RECEIVING.
Proof. split; reflexivity. Qed.

(** C3 (amended): [update(t, **fields)] on a record that exists applies
    every field mutation in order whatever the record's state, terminal
    states included: the stored and returned record is the old one with
    the fields set, and its state is the last one the mutations set (the
    old state when they set none). On an unknown id it returns [None] and
    leaves the registry unchanged. *)
Theorem update_applies_in_every_state (reg : Registry) (tid : string)
    (r : TransferRecord) (kws : list FieldUpdate) :
  reg !! tid = Some r ->
  get (fst (update reg tid kws)) tid = Some (apply_kwargs kws r) /\
  snd (update reg tid kws) = Some (apply_kwargs kws r) /\
  state (apply_kwargs kws r) = default (state r) (last_set_state kws) /\
  (forall tid', reg !! tid' = None -> update reg tid' kws = (reg, None)).
Proof.
  intros H. split; [apply update_lookup_Some, H|].
  split; [apply update_snd_Some, H|].
  split; [apply apply_kwargs_state|].
  intros tid' H'. unfold update. rewrite H'. reflexivity.
Qed.

Lemma update_applies_in_every_state_witness :
  Fixtures.reg_done !! "t" = Some Fixtures.done_record /\
  state (apply_kwargs [SetState RECEIVING; SetBytesReceived 0] Fixtures.done_record)
    = RECEIVING /\
  get (fst (update Fixtures.reg_done "t" [SetState RECEIVING; SetBytesReceived 0])) "t"
    = Some (apply_kwargs [SetState RECEIVING; SetBytesReceived 0] Fixtures.done_record).
Proof.
  assert (H : Fixtures.reg_done !! "t" = Some Fixtures.done_record) by reflexivity.
  split; [exact H|]. split; [reflexivity|].
  exact (proj1 (update_applies_in_every_state Fixtures.reg_done "t" Fixtures.done_record
                  [SetState RECEIVING; SetBytesReceived 0] H)).
Defined.

(** ** The upload endpoint on a fully received body *)

Lemma receive_loop_chunks (tid : string) (cs : list (list Byte.byte)) :
  forall (reg : Registry) content b c r,
  reg !! tid = Some r ->
  exists reg' r',
    receive_loop reg tid content (map Chunk cs) b c
      = StreamOk reg' (content ++ concat cs) (b + Z.of_nat (length (concat cs))) /\
    reg' !! tid = Some r'.
Proof.
  induction cs as [|x cs IH]; intros reg content b c r Hr; simpl.
  - exists reg, r. rewrite app_nil_r, Z.add_0_r. auto.
  - assert (Hreg : exists r1,
              (if (c + 1) mod update_every =? 0
               then fst (update reg tid [SetBytesReceived (b + Z.of_nat (length x))])
               else reg) !! tid = Some r1).
    { destruct (_ =? 0); eauto using update_lookup_Some. }
    destruct Hreg as [r1 Hr1].
    destruct (IH _ (content ++ x) (b + Z.of_nat (length x)) (c + 1) r1 Hr1)
      as (reg' & r' & Heq & Hr').
    exists reg', r'. split; [|exact Hr'].
    rewrite Heq, <- app_assoc, length_app, Nat2Z.inj_add, Z.add_assoc. reflexivity.
Qed.

(** With both headers present, the staging file opened and every chunk
    received, [upload] runs the receive loop to its end and continues in
    [finish_upload] with the whole body on disk. *)
Lemma upload_complete (st : Server) (env : Env) (req : Request) (tid fname : string)
    (cs : list (list Byte.byte)) :
  truthy (hdr_transfer_id req) = Some tid ->
  truthy (hdr_original_filename req) = Some fname ->
  env_open_error env = None ->
  body req = map Chunk cs ->
  exists reg r,
    reg !! tid = Some r /\
    upload st env req
      = finish_upload st env reg
          (<[staging_path (output_dir st) fname := concat cs]> (files st))
          tid fname (concat cs) (Z.of_nat (length (concat cs))).
Proof.
  intros Htid Hfn Hopen Hbody. unfold upload. rewrite Htid, Hfn, Hopen, Hbody.
  destruct (receive_loop_chunks tid cs (fst (create (transfers st) tid fname (env_now env)))
              [] 0 0 _ (create_lookup _ _ _ _)) as (reg & r & Heq & Hr).
  rewrite Heq. exists reg, r. split; [exact Hr|]. reflexivity.
Qed.

Lemma finish_upload_returns st env (reg : Registry) fs tid fname content n r :
  reg !! tid = Some r ->
  exists final,
    snd (finish_upload st env reg fs tid fname content n) = Returned (response_of final) /\
    get (transfers (fst (finish_upload st env reg fs tid fname content n))) tid = Some final /\
    state final = finish_state st env content /\
    bytes_received final = n /\
    (String.eqb (store_as st) "msz" = true ->
       files (fst (finish_upload st env reg fs tid fname content n)) = fs /\
       stored_as final = staging_path (output_dir st) fname).
Proof.
  intros Hr. unfold finish_upload, finish_state.
  pose proof (update_lookup_Some _ _ _ [SetBytesReceived n] Hr) as H1.
  pose proof (update_lookup_Some _ _ _ [SetState RECEIVED] H1) as H2.
  destruct (String.eqb (store_as st) "msz") eqn:Hm.
  - pose proof (update_lookup_Some _ _ _
                  [SetState DONE; SetStoredAs (staging_path (output_dir st) fname);
                   SetBytesReceived n] H2) as H3.
    unfold get. simpl in H3 |- *. rewrite H3. simpl. rewrite H3.
    eexists. repeat split; reflexivity.
  - destruct (String.eqb (store_as st) "mzml") eqn:Hz.
    + pose proof (update_lookup_Some _ _ _ [SetState DECOMPRESSING] H2) as H3.
      destruct (env_decompress env content) as [msg|out].
      * pose proof (update_lookup_Some _ _ _ [SetState ERROR; SetError (Some msg)] H3) as H4.
        unfold get. simpl in H4 |- *. rewrite H4. simpl. rewrite H4.
        eexists. repeat split; first [reflexivity | intros ?; congruence | congruence].
      * pose proof (update_lookup_Some _ _ _
                      [SetState DONE; SetStoredAs (mzml_output_path (output_dir st) fname);
                       SetBytesReceived n] H3) as H4.
        unfold get. simpl in H4 |- *. rewrite H4. simpl. rewrite H4.
        eexists. repeat split; first [reflexivity | intros ?; congruence | congruence].
    + unfold get. simpl in H2 |- *. rewrite H2. simpl. rewrite H2.
      eexists. repeat split; first [reflexivity | intros ?; congruence | congruence].
Qed.

(** ** C8 *)

(** C8: on a [store_as=msz] server, an upload with both headers whose body
    [P] (the chunks [cs]) is fully received and written returns a record,
    also returned by the status endpoint right after, in state [done] with
    [bytes_received = len(P)], and the staging file holds [P]; the empty
    body ([cs = []]) is one such upload. *)
Theorem upload_bytes_received_is_body_length (st : Server) (env : Env) (req : Request)
    (tid fname : string) (cs : list (list Byte.byte)) :
  store_as st = "msz" ->
  truthy (hdr_transfer_id req) = Some tid ->
  truthy (hdr_original_filename req) = Some fname ->
  env_open_error env = None ->
  body req = map Chunk cs ->
  exists final,
    snd (upload st env req) = Returned (response_of final) /\
    transfer_status (fst (upload st env req)) tid = (200, Some final) /\
    state final = DONE /\
    bytes_received final = Z.of_nat (length (concat cs)) /\
    files (fst (upload st env req)) !! staging_path (output_dir st) fname = Some (concat cs).
Proof.
  intros Hm Htid Hfn Hopen Hbody.
  destruct (upload_complete st env req tid fname cs Htid Hfn Hopen Hbody)
    as (reg & r & Hr & ->).
  destruct (finish_upload_returns st env reg
              (<[staging_path (output_dir st) fname := concat cs]> (files st))
              tid fname (concat cs) (Z.of_nat (length (concat cs))) r Hr)
    as (final & Hresp & Hget & Hstate & Hbytes & Hmsz).
  rewrite Hm in Hmsz. destruct (Hmsz eq_refl) as [Hfiles _].
  exists final. split; [exact Hresp|]. split.
  - unfold transfer_status. rewrite Hget. reflexivity.
  - split; [unfold finish_state in Hstate; rewrite Hm in Hstate; exact Hstate|].
    split; [exact Hbytes|]. rewrite Hfiles. apply lookup_insert_eq.
Qed.

Lemma upload_bytes_received_is_body_length_witness :
  exists final,
    snd (upload (Fixtures.server "msz" ∅) Fixtures.env_ok (Fixtures.req_t "empty.msz" []))
      = Returned (response_of final) /\
    state final = DONE /\ bytes_received final = 0.
Proof.
  destruct (upload_bytes_received_is_body_length (Fixtures.server "msz" ∅) Fixtures.env_ok
              (Fixtures.req_t "empty.msz" []) "t" "empty.msz" []
              eq_refl eq_refl eq_refl eq_refl eq_refl)
    as (final & Hresp & _ & Hstate & Hbytes & _).
  exists final. split; [exact Hresp|]. split; [exact Hstate|]. exact Hbytes.
Defined.

(** ** C2 *)

(** C2 (counterexample): ["out/test.msz"] exists before an upload of
    ["test.msz"]; the upload is answered 200 and the file is overwritten
    with the new body. *)
Lemma C2_existing_staging_file_overwritten :
  files (Fixtures.server "msz" ∅) !! "out/test.msz" = Some [Byte.x09; Byte.x09] /\
  status_code (snd (upload (Fixtures.server "msz" ∅) Fixtures.env_ok
                      (Fixtures.req_t "test.msz" Fixtures.body_12))) = 200 /\
  files (fst (upload (Fixtures.server "msz" ∅) Fixtures.env_ok
               (Fixtures.req_t "test.msz" Fixtures.body_12))) !! "out/test.msz"
    = Some [Byte.x01; Byte.x02].
Proof. split; [reflexivity|]. split; vm_compute; reflexivity. Qed.

(** C2 (amended): the upload endpoint does not check whether the staging
    path [<output_dir>/<stem>.msz] exists: it never answers 409, and on a
    [store_as=msz] server an upload with both headers whose body is fully
    received and written is answered 200 and leaves the staging file
    holding exactly the new body, whatever the file held before. *)
Theorem upload_overwrites_existing_staging_file (st : Server) (env : Env) (req : Request)
    (tid fname : string) (cs : list (list Byte.byte)) (old : list Byte.byte) :
  store_as st = "msz" ->
  truthy (hdr_transfer_id req) = Some tid ->
  truthy (hdr_original_filename req) = Some fname ->
  env_open_error env = None ->
  body req = map Chunk cs ->
  files st !! staging_path (output_dir st) fname = Some old ->
  status_code (snd (upload st env req)) = 200 /\
  files (fst (upload st env req)) !! staging_path (output_dir st) fname = Some (concat cs) /\
  (forall (st' : Server) (env' : Env) (req' : Request),
     status_code (snd (upload st' env' req')) <> 409).
Proof.
  intros Hm Htid Hfn Hopen Hbody _.
  split; [|split; [|apply upload_never_409]].
  - destruct (upload_complete st env req tid fname cs Htid Hfn Hopen Hbody)
      as (reg & r & Hr & ->).
    destruct (finish_upload_returns st env reg
                (<[staging_path (output_dir st) fname := concat cs]> (files st))
                tid fname (concat cs) (Z.of_nat (length (concat cs))) r Hr)
      as (final & Hresp & _).
    rewrite Hresp. reflexivity.
  - destruct (upload_complete st env req tid fname cs Htid Hfn Hopen Hbody)
      as (reg & r & Hr & ->).
    destruct (finish_upload_returns st env reg
                (<[staging_path (output_dir st) fname := concat cs]> (files st))
                tid fname (concat cs) (Z.of_nat (length (concat cs))) r Hr)
      as (final & _ & _ & _ & _ & Hmsz).
    rewrite Hm in Hmsz. destruct (Hmsz eq_refl) as [-> _]. apply lookup_insert_eq.
Qed.

Lemma upload_overwrites_existing_staging_file_witness :
  status_code (snd (upload (Fixtures.server "msz" ∅) Fixtures.env_ok
                      (Fixtures.req_t "test.msz" Fixtures.body_12))) = 200 /\
  files (fst (upload (Fixtures.server "msz" ∅) Fixtures.env_ok
               (Fixtures.req_t "test.msz" Fixtures.body_12))) !! "out/test.msz"
    = Some [Byte.x01; Byte.x02].
Proof.
  destruct (upload_overwrites_existing_staging_file (Fixtures.server "msz" ∅) Fixtures.env_ok
              (Fixtures.req_t "test.msz" Fixtures.body_12) "t" "test.msz" Fixtures.body_12
              [Byte.x09; Byte.x09] eq_refl eq_refl eq_refl eq_refl eq_refl eq_refl)
    as (H1 & H2 & _).
  split; [exact H1 | exact H2].
Defined.

(** ** C4 *)

(** C4 (counterexample): on a [store_as=mzml] server whose decompression
    fails, the completed upload is answered 200 with state [error]. *)
Lemma C4_failed_decompression_answered_200 :
  match snd (upload (Fixtures.server "mzml" ∅) Fixtures.env_bad_msz
               (Fixtures.req_t "test.msz" Fixtures.body_12)) with
  | Returned u => ur_state u = ERROR
  | Raised _ _ => False
  end /\
  status_code (snd (upload (Fixtures.server "mzml" ∅) Fixtures.env_bad_msz
                      (Fixtures.req_t "test.msz" Fixtures.body_12))) = 200.
Proof. split; vm_compute; reflexivity. Qed.

(** C4 (amended): with [store_as] [msz] or [mzml], an upload with both
    headers whose body is fully received and written is answered 200 with
    the record after all processing: state [done], except on an [mzml]
    server whose decompression fails, where it is [error]; it is never
    returned in state [decompressing]. *)
Theorem upload_completed_answers_200 (st : Server) (env : Env) (req : Request)
    (tid fname : string) (cs : list (list Byte.byte)) :
  store_as st = "msz" \/ store_as st = "mzml" ->
  truthy (hdr_transfer_id req) = Some tid ->
  truthy (hdr_original_filename req) = Some fname ->
  env_open_error env = None ->
  body req = map Chunk cs ->
  exists final,
    snd (upload st env req) = Returned (response_of final) /\
    status_code (snd (upload st env req)) = 200 /\
    state final = (if String.eqb (store_as st) "msz" then DONE
                   else match env_decompress env (concat cs) with
                        | inr _ => DONE
                        | inl _ => ERROR
                        end) /\
    state final <> DECOMPRESSING.
Proof.
  intros Hmode Htid Hfn Hopen Hbody.
  destruct (upload_complete st env req tid fname cs Htid Hfn Hopen Hbody)
    as (reg & r & Hr & ->).
  destruct (finish_upload_returns st env reg
              (<[staging_path (output_dir st) fname := concat cs]> (files st))
              tid fname (concat cs) (Z.of_nat (length (concat cs))) r Hr)
    as (final & Hresp & _ & Hstate & _).
  exists final. rewrite Hresp. split; [reflexivity|]. split; [reflexivity|].
  unfold finish_state in Hstate.
  destruct Hmode as [Hm|Hm]; rewrite Hm in Hstate |- *; simpl in Hstate |- *.
  - rewrite Hstate. split; [reflexivity|discriminate].
  - rewrite Hstate. split; [reflexivity|].
    destruct (env_decompress env (concat cs)); discriminate.
Qed.

Lemma upload_completed_answers_200_witness :
  exists final,
    snd (upload (Fixtures.server "mzml" ∅) Fixtures.env_bad_msz
           (Fixtures.req_t "test.msz" Fixtures.body_12)) = Returned (response_of final) /\
    state final = ERROR.
Proof.
  destruct (upload_completed_answers_200 (Fixtures.server "mzml" ∅) Fixtures.env_bad_msz
              (Fixtures.req_t "test.msz" Fixtures.body_12) "t" "test.msz" Fixtures.body_12
              (or_intror eq_refl) eq_refl eq_refl eq_refl eq_refl)
    as (final & Hresp & _ & Hstate & _).
  exists final. split; [exact Hresp | exact Hstate].
Defined.

(** ** C9 *)

Lemma has_char_append (c : ascii) (s t : string) :
  has_char c (s +:+ t) = has_char c s || has_char c t.
Proof.
  induction s as [|d s IH]; simpl; [reflexivity|].
  rewrite IH, orb_assoc. reflexivity.
Qed.

Lemma split_aux_no_sep (sep : ascii) (s : string) :
  forall cur x, has_char sep cur = false ->
  In x (PyPath.split_aux sep s cur) -> has_char sep x = false.
Proof.
  induction s as [|c s IH]; intros cur x Hcur Hin; simpl in Hin.
  - destruct Hin as [<-|[]]. exact Hcur.
  - destruct (Ascii.eqb c sep) eqn:Hc.
    + destruct Hin as [<-|Hin]; [exact Hcur|].
      exact (IH EmptyString x eq_refl Hin).
    + apply (IH (cur +:+ String c EmptyString) x); [|exact Hin].
      rewrite has_char_append, Hcur. simpl. rewrite Hc. reflexivity.
Qed.

Lemma name_no_slash (s : string) : has_char "/"%char (PyPath.name s) = false.
Proof.
  unfold PyPath.name. destruct (last (PyPath.rel_parts s)) as [n|] eqn:Hl; [|reflexivity].
  apply last_Some_elem_of, list_elem_of_In in Hl.
  unfold PyPath.rel_parts in Hl. apply filter_In in Hl as [Hl _].
  exact (split_aux_no_sep _ s EmptyString n eq_refl Hl).
Qed.

Lemma substring_no_char (c : ascii) (s : string) :
  forall a b, has_char c s = false -> has_char c (substring a b s) = false.
Proof.
  induction s as [|d s IH]; intros a b H; simpl in H.
  - destruct a, b; reflexivity.
  - apply orb_false_iff in H as [Hd Hs].
    destruct a as [|a]; simpl.
    + destruct b as [|b]; simpl; [reflexivity|].
      rewrite Hd. exact (IH 0%nat b Hs).
    + exact (IH a b Hs).
Qed.

Lemma stem_no_slash (s : string) : has_char "/"%char (PyPath.stem s) = false.
Proof.
  unfold PyPath.stem, PyPath.stem_of_name. pose proof (name_no_slash s) as H.
  destruct (PyPath.rfind _ _); [|exact H].
  destruct (_ && _); [apply substring_no_char|]; exact H.
Qed.

Lemma stem_ext_single (s ext : string) :
  has_char "/"%char ext = false ->
  (exists a b c rest, ext = String a (String b (String c rest))) ->
  single_component (PyPath.stem s +:+ ext) = true.
Proof.
  intros Hext (a & b & c & rest & ->).
  unfold single_component. rewrite has_char_append, stem_no_slash, Hext. simpl.
  destruct (PyPath.stem s) as [|x [|y t]]; simpl;
    repeat match goal with |- context [Ascii.eqb ?u ?v] => destruct (Ascii.eqb u v) end;
    simpl; try reflexivity.
  destruct t; reflexivity.
Qed.

Lemma staging_path_single (h : string) :
  single_component (PyPath.stem h +:+ ".msz") = true.
Proof. apply stem_ext_single; [reflexivity|]. do 4 eexists. reflexivity. Qed.

Lemma mzml_output_path_single (h : string) :
  single_component (PyPath.stem h +:+ ".mzML") = true.
Proof. apply stem_ext_single; [reflexivity|]. do 4 eexists. reflexivity. Qed.

Lemma finish_upload_files_elsewhere st env (reg : Registry) fs tid fname content n p :
  p <> staging_path (output_dir st) fname ->
  p <> mzml_output_path (output_dir st) fname ->
  files (fst (finish_upload st env reg fs tid fname content n)) !! p = fs !! p.
Proof.
  intros Hs Hz. unfold finish_upload.
  destruct (String.eqb (store_as st) "msz");
    [| destruct (String.eqb (store_as st) "mzml");
       [destruct (env_decompress env content)|]];
    simpl; destruct (get _ tid); simpl; try reflexivity.
  all: rewrite lookup_delete_ne by congruence; rewrite lookup_insert_ne by congruence;
       reflexivity.
Qed.

(** Every file an upload changes is its staging path or its mzML path. *)
Lemma upload_files_elsewhere (st : Server) (env : Env) (req : Request) (p : string) :
  files (fst (upload st env req)) !! p <> files st !! p ->
  exists fname, hdr_original_filename req = Some fname /\
    (p = staging_path (output_dir st) fname \/ p = mzml_output_path (output_dir st) fname).
Proof.
  intros Hchg. unfold upload in Hchg.
  destruct (truthy (hdr_transfer_id req)) as [tid|]; [|contradiction].
  destruct (hdr_original_filename req) as [fname|] eqn:Hfn; simpl in Hchg;
    [|contradiction].
  destruct fname as [|a rest]; [contradiction|].
  exists (String a rest). split; [reflexivity|].
  destruct (decide (p = staging_path (output_dir st) (String a rest))) as [->|Hs];
    [left; reflexivity|].
  destruct (decide (p = mzml_output_path (output_dir st) (String a rest))) as [->|Hz];
    [right; reflexivity|].
  exfalso. apply Hchg.
  destruct (env_open_error env); [reflexivity|].
  destruct (receive_loop _ _ _ _ _ _).
  - rewrite finish_upload_files_elsewhere by assumption.
    apply lookup_insert_ne. congruence.
  - simpl. apply lookup_insert_ne. congruence.
Qed.

(** C9: the staging path of every [X-Original-Filename] value [h] is
    [<output_dir>/<n>] for the single directory entry
    [n = Path(h).stem + ".msz"] (no separator, not empty, not ["."] or
    [".."]); and every file an upload creates, overwrites or removes is
    such an entry of the output directory (the staging path or the mzML
    output path), whatever the header values. *)
Theorem upload_stays_in_output_dir :
  (forall (out h : string),
     single_component (PyPath.stem h +:+ ".msz") = true /\
     staging_path out h = PyPath.join out (PyPath.stem h +:+ ".msz")) /\
  (forall (st : Server) (env : Env) (req : Request) (p : string),
     files (fst (upload st env req)) !! p <> files st !! p ->
     exists n, single_component n = true /\ p = PyPath.join (output_dir st) n).
Proof.
  split.
  - intros out h. split; [apply staging_path_single | reflexivity].
  - intros st env req p Hchg.
    destruct (upload_files_elsewhere st env req p Hchg) as (fname & _ & [->| ->]).
    + eexists. split; [apply (staging_path_single fname) | reflexivity].
    + eexists. split; [apply (mzml_output_path_single fname) | reflexivity].
Qed.

Lemma upload_stays_in_output_dir_witness :
  staging_path "out" "../../etc/cron.d/job.mzML" = "out/job.msz" /\
  exists n, single_component n = true /\ "out/job.msz" = PyPath.join "out" n.
Proof.
  split; [reflexivity|].
  apply (proj2 upload_stays_in_output_dir (Fixtures.server "msz" ∅) Fixtures.env_ok
           (Fixtures.req_t "../../etc/cron.d/job.mzML" Fixtures.body_12)).
  vm_compute. discriminate.
Defined.

(** ** C10 *)

(** C10: [send_batch([], parallel)] raises the [ValueError] of
    [ThreadPoolExecutor(max_workers=0)] (or of a negative count) instead
    of returning an empty list. *)
Theorem send_batch_empty_raises (parallel : Z) (env : Batch.BatchEnv) :
  Batch.send_batch [] parallel env = Batch.BatchRaised "max_workers must be greater than 0".
Proof.
  unfold Batch.send_batch, Batch.pool_ok. simpl length. rewrite Nat2Z.inj_0.
  destruct (Z.min parallel 0 <=? 0) eqn:E; [reflexivity|].
  apply Z.leb_gt in E. lia.
Qed.

(** ** C5 *)

Lemma submit_all_entries (env : Batch.BatchEnv) (file_paths : list string) :
  forall idx futures, Batch.submit_all env idx file_paths = inr futures ->
  futures = zip (seq idx (length file_paths)) file_paths.
Proof.
  induction file_paths as [|f fps IH]; intros idx futures H; simpl in H.
  - injection H as <-. reflexivity.
  - destruct (if String.eqb _ ".msz" then _ else _); [discriminate|].
    destruct (Batch.submit_all env (S idx) fps) eqn:Hr; [discriminate|].
    injection H as <-. rewrite (IH _ _ Hr). reflexivity.
Qed.

(** What the code gets right: when [send_batch] returns and
    [as_completed] yields each future once, the results are the
    input-order results (one per input, with its basename) in completion
    order. *)
Lemma send_batch_results_permutation (file_paths : list string) (parallel : Z)
    (env : Batch.BatchEnv) (results : list Batch.FileResult) :
  (forall l, Permutation (Batch.be_as_completed env l) l) ->
  Batch.send_batch file_paths parallel env = Batch.BatchReturned results ->
  length results = length file_paths /\
  Permutation results
    (map (Batch.collect env) (zip (seq 0 (length file_paths)) file_paths)).
Proof.
  intros Hperm. unfold Batch.send_batch.
  destruct (Batch.pool_ok _); [discriminate|].
  destruct (Batch.submit_all env 0 file_paths) as [|futures] eqn:Hs; [discriminate|].
  intros H. injection H as <-. apply submit_all_entries in Hs. subst futures.
  assert (Hp : Permutation (map (Batch.collect env)
                 (Batch.be_as_completed env (zip (seq 0 (length file_paths)) file_paths)))
                 (map (Batch.collect env) (zip (seq 0 (length file_paths)) file_paths)))
    by (apply Permutation_map, Hperm).
  split; [|exact Hp].
  rewrite (Permutation_length Hp), length_map, length_zip, length_seq. lia.
Qed.

(** C5 (failing input): [send_batch(["alpha.msz", "beta.msz"], parallel=2)]
    where [beta.msz] finishes first returns [beta.msz]'s result at index
    0, not [alpha.msz]'s. *)
Lemma send_batch_completion_order :
  match Batch.send_batch ["alpha.msz"; "beta.msz"] 2 Fixtures.batch_env_rev with
  | Batch.BatchReturned results => map Batch.fr_filename results
  | Batch.BatchRaised _ => []
  end = ["beta.msz"; "alpha.msz"].
Proof. vm_compute. reflexivity. Qed.

(** ** C7 *)

(** C7 (failing input): resolving the directory [d] drops [d/x.mszx],
    whose extension [.mszx] is supported and which the file branch accepts
    when it is named directly. *)
Lemma resolve_inputs_drops_mszx_in_dir :
  Resolve.resolve_inputs Fixtures.fs_d ["d"] false = Some [["d"; "a.msz"]] /\
  Resolve.resolve_inputs Fixtures.fs_d ["d"] true = Some [["d"; "a.msz"]] /\
  Resolve.resolve_inputs Fixtures.fs_d ["d/x.mszx"] false = Some [["d"; "x.mszx"]] /\
  Resolve.in_list (Resolve.lower (PyPath.suffix "d/x.mszx")) Resolve.VALID_EXTENSIONS = true.
Proof. vm_compute. repeat split. Qed.

(** ** C6 *)

Section PollProofs.
Import Poll.

Lemma poll_loop_continue (T tl lb : Z) (ls : option TransferState) (o : PollObs)
    (rest : list PollObs) :
  po_check o < tl + T -> terminal_answer o = false ->
  poll_loop T (tl + T) ls lb (o :: rest)
  = poll_loop T ((scan_step (ls, lb, tl) o).2 + T)
      (scan_step (ls, lb, tl) o).1.1 (scan_step (ls, lb, tl) o).1.2 rest.
Proof.
  intros Hc Ht. unfold terminal_answer in Ht. simpl.
  apply Z.ltb_lt in Hc. rewrite Hc.
  destruct (po_status o =? 200); simpl in Ht |- *; [|reflexivity].
  rewrite Ht. simpl. destruct (progressed ls lb o); reflexivity.
Qed.

Lemma poll_loop_terminal (T deadline lb : Z) (ls : option TransferState) (o : PollObs)
    (rest : list PollObs) :
  po_check o < deadline -> terminal_answer o = true ->
  poll_loop T deadline ls lb (o :: rest) = PollReturned (po_state o).
Proof.
  intros Hc Ht. unfold terminal_answer in Ht. apply andb_true_iff in Ht as [Hs Ht].
  simpl. apply Z.ltb_lt in Hc. rewrite Hc, Hs, Ht. reflexivity.
Qed.

Lemma poll_loop_expired (T deadline lb : Z) (ls : option TransferState) (o : PollObs)
    (rest : list PollObs) :
  deadline <= po_check o -> poll_loop T deadline ls lb (o :: rest) = PollTimeout.
Proof.
  intros Hc. simpl. destruct (po_check o <? deadline) eqn:E; [|reflexivity].
  apply Z.ltb_lt in E. lia.
Qed.

Lemma last_progress_from_0 acc (trace : list PollObs) :
  last_progress_from acc trace 0 = acc.2.
Proof. reflexivity. Qed.

Lemma last_progress_from_S acc (o : PollObs) (rest : list PollObs) (k : nat) :
  last_progress_from acc (o :: rest) (S k) = last_progress_from (scan_step acc o) rest k.
Proof. reflexivity. Qed.

Lemma runs_through_cons (T : Z) acc (o : PollObs) (rest : list PollObs) (k : nat) :
  runs_through T acc (o :: rest) (S k) <->
  (po_check o < acc.2 + T /\ terminal_answer o = false) /\
  runs_through T (scan_step acc o) rest k.
Proof.
  unfold runs_through, last_progress_from. split.
  - intros H. split.
    + exact (H 0%nat o ltac:(lia) eq_refl).
    + intros j oj Hj Hoj. exact (H (S j) oj ltac:(lia) Hoj).
  - intros [H0 H] j oj Hj Hoj. destruct j as [|j].
    + injection Hoj as <-. exact H0.
    + exact (H j oj ltac:(lia) Hoj).
Qed.

Lemma poll_loop_timeout_iff (T : Z) (trace : list PollObs) :
  forall ls lb tl,
  poll_loop T (tl + T) ls lb trace = PollTimeout <->
  exists k o, trace !! k = Some o /\
    last_progress_from (ls, lb, tl) trace k + T <= po_check o /\
    runs_through T (ls, lb, tl) trace k.
Proof.
  induction trace as [|o rest IH]; intros ls lb tl.
  - split; [discriminate|]. intros (k & o & H & _). rewrite lookup_nil in H. discriminate.
  - destruct (Z_lt_le_dec (po_check o) (tl + T)) as [Hc|Hc].
    + destruct (terminal_answer o) eqn:Ht.
      * rewrite poll_loop_terminal by assumption. split; [discriminate|].
        intros (k & o' & Hk & Hle & Hrun). destruct k as [|k].
        -- injection Hk as <-. rewrite last_progress_from_0 in Hle. simpl in Hle. lia.
        -- apply runs_through_cons in Hrun as [[_ Hf] _]. congruence.
      * rewrite poll_loop_continue by assumption.
        destruct (scan_step (ls, lb, tl) o) as [[ls' lb'] tl'] eqn:Hstep. simpl.
        rewrite IH. split.
        -- intros (k & o' & Hk & Hle & Hrun). exists (S k), o'. split; [exact Hk|].
           split.
           ++ rewrite last_progress_from_S, Hstep. exact Hle.
           ++ apply runs_through_cons. split; [split; assumption|]. rewrite Hstep. exact Hrun.
        -- intros (k & o' & Hk & Hle & Hrun). destruct k as [|k].
           ++ injection Hk as <-. rewrite last_progress_from_0 in Hle. simpl in Hle. lia.
           ++ exists k, o'. split; [exact Hk|].
              apply runs_through_cons in Hrun as [_ Hrun]. rewrite Hstep in Hrun.
              split; [|exact Hrun].
              rewrite last_progress_from_S, Hstep in Hle. exact Hle.
    + rewrite poll_loop_expired by assumption. split; [intros _|reflexivity].
      exists 0%nat, o. split; [reflexivity|]. split.
      * rewrite last_progress_from_0. exact Hc.
      * intros j oj Hj. lia.
Qed.

Lemma poll_loop_returned_iff (T : Z) (s : TransferState) (trace : list PollObs) :
  forall ls lb tl,
  poll_loop T (tl + T) ls lb trace = PollReturned s <->
  exists k o, trace !! k = Some o /\
    po_check o < last_progress_from (ls, lb, tl) trace k + T /\
    terminal_answer o = true /\ po_state o = s /\
    runs_through T (ls, lb, tl) trace k.
Proof.
  induction trace as [|o rest IH]; intros ls lb tl.
  - split; [discriminate|]. intros (k & o & H & _). rewrite lookup_nil in H. discriminate.
  - destruct (Z_lt_le_dec (po_check o) (tl + T)) as [Hc|Hc].
    + destruct (terminal_answer o) eqn:Ht.
      * rewrite poll_loop_terminal by assumption. split.
        -- intros Hs. injection Hs as <-. exists 0%nat, o.
           split; [reflexivity|]. rewrite last_progress_from_0.
           split; [exact Hc|]. split; [exact Ht|]. split; [reflexivity|].
           intros j oj Hj. lia.
        -- intros (k & o' & Hk & _ & Ht' & Hs & Hrun). destruct k as [|k].
           ++ injection Hk as <-. rewrite Hs. reflexivity.
           ++ apply runs_through_cons in Hrun as [[_ Hf] _]. congruence.
      * rewrite poll_loop_continue by assumption.
        destruct (scan_step (ls, lb, tl) o) as [[ls' lb'] tl'] eqn:Hstep. simpl.
        rewrite IH. split.
        -- intros (k & o' & Hk & Hlt & Hterm & Hs & Hrun). exists (S k), o'.
           split; [exact Hk|]. rewrite last_progress_from_S, Hstep.
           split; [exact Hlt|]. split; [exact Hterm|]. split; [exact Hs|].
           apply runs_through_cons. split; [split; assumption|]. rewrite Hstep. exact Hrun.
        -- intros (k & o' & Hk & Hlt & Hterm & Hs & Hrun). destruct k as [|k].
           ++ injection Hk as <-. congruence.
           ++ exists k, o'. split; [exact Hk|].
              rewrite last_progress_from_S, Hstep in Hlt.
              apply runs_through_cons in Hrun as [_ Hrun]. rewrite Hstep in Hrun.
              split; [exact Hlt|]. split; [exact Hterm|]. split; [exact Hs|exact Hrun].
    + rewrite poll_loop_expired by assumption. split; [discriminate|].
      intros (k & o' & Hk & Hlt & _ & _ & Hrun). destruct k as [|k].
      * injection Hk as <-. rewrite last_progress_from_0 in Hlt. simpl in Hlt. lia.
      * apply runs_through_cons in Hrun as [[Hlt0 _] _]. simpl in Hlt0. lia.
Qed.

End PollProofs.

(** C6 (counterexample): answers with 10, 5 and then 7 bytes in the same
    state. The third answer has more bytes than the one before it, yet the
    deadline is not reset (7 does not exceed the recorded 10), so the
    poller times out at the fourth loop test (clock 11), less than
    [T = 10] after that answer, instead of reading the [done] answer. *)
Lemma C6_no_reset_on_rise_after_drop :
  Poll.poll_status 0 10 Fixtures.trace_regress = Poll.PollTimeout /\
  Fixtures.trace_regress !! 1%nat = Some (Poll.mkPollObs 1 200 RECEIVED 5 1) /\
  Fixtures.trace_regress !! 2%nat = Some (Poll.mkPollObs 2 200 RECEIVED 7 2) /\
  Fixtures.trace_regress !! 3%nat = Some (Poll.mkPollObs 11 200 DONE 7 11) /\
  5 < 7 /\ 11 < 2 + 10.
Proof. repeat split; first [reflexivity | lia]. Qed.

(** C6 (amended): [_poll_status] started at clock [t0] with timeout [T]
    returns the state of the first 200 answer in [done] or [error] read
    before the deadline, and raises [TimeoutError] at the first loop test
    at or after the deadline, where the deadline is [T] after the last
    progress observation ([t0 + T] before any). A progress observation is a
    200 answer in a non-terminal state that differs from the state recorded
    at the last reset or whose [bytes_received] exceeds the count recorded
    at the last reset (initially no state and 0); the recorded pair is
    updated only on a reset, and non-200 answers are ignored. *)
Theorem poll_status_progress_deadline (t0 T : Z) (trace : list Poll.PollObs)
    (s : TransferState) :
  (Poll.poll_status t0 T trace = Poll.PollReturned s <->
   exists k o, trace !! k = Some o /\
     Poll.po_check o < Poll.last_progress t0 trace k + T /\
     Poll.terminal_answer o = true /\ Poll.po_state o = s /\
     Poll.runs_through T (None, 0, t0) trace k) /\
  (Poll.poll_status t0 T trace = Poll.PollTimeout <->
   exists k o, trace !! k = Some o /\
     Poll.last_progress t0 trace k + T <= Poll.po_check o /\
     Poll.runs_through T (None, 0, t0) trace k).
Proof.
  split; [apply poll_loop_returned_iff | apply poll_loop_timeout_iff].
Qed.

Lemma poll_status_progress_deadline_witness :
  exists k o, Fixtures.trace_regress !! k = Some o /\
    Poll.last_progress 0 Fixtures.trace_regress k + 10 <= Poll.po_check o.
Proof.
  destruct (proj1 (proj2 (poll_status_progress_deadline 0 10 Fixtures.trace_regress DONE))
              eq_refl) as (k & o & Hk & Hle & _).
  exists k, o. split; [exact Hk | exact Hle].
Defined.

(* ================================================================== *)
(** * Further properties of the embedded code *)

Lemma fold_delete_lookup (l : list string) :
  forall (m : Registry) k,
  fold_left (fun acc t => delete t acc) l m !! k = if bool_decide (k ∈ l) then None else m !! k.
Proof.
  induction l as [|t l IH]; intros m k; simpl; [reflexivity|].
  rewrite IH. destruct (decide (t = k)) as [->|Hne].
  - rewrite lookup_delete_eq. repeat case_bool_decide; set_solver.
  - rewrite lookup_delete_ne by exact Hne. repeat case_bool_decide; set_solver.
Qed.

Lemma fold_delete_size (l : list string) :
  forall (m : Registry), NoDup l -> (forall k, In k l -> is_Some (m !! k)) ->
  (length l + size (fold_left (fun acc t => delete t acc) l m) = size m)%nat.
Proof.
  induction l as [|t l IH]; intros m Hnd Hin; simpl; [reflexivity|].
  apply NoDup_cons in Hnd as [Ht Hnd].
  rewrite IH; [| exact Hnd |].
  - rewrite map_size_delete_Some by (apply Hin; left; reflexivity).
    assert (0 < size m)%nat.
    { pose proof (map_size_ne_0_lookup_2 m t (Hin t (or_introl eq_refl))). lia. }
    lia.
  - intros k Hk. rewrite lookup_delete_ne.
    + apply Hin. right. exact Hk.
    + intros ->. apply Ht, list_elem_of_In, Hk.
Qed.

Lemma NoDup_map_fst_filter {A B} (f : A * B -> bool) (l : list (A * B)) :
  NoDup (map fst l) -> NoDup (map fst (List.filter f l)).
Proof.
  induction l as [|[a b] l IH]; simpl; intros Hnd; [constructor|].
  apply NoDup_cons in Hnd as [Ha Hnd].
  destruct (f (a, b)); simpl; [|apply IH, Hnd].
  constructor; [|apply IH, Hnd].
  intros Hin. apply Ha. apply list_elem_of_In in Hin. apply list_elem_of_In.
  apply in_map_iff in Hin as ([a' b'] & Heq & Hin). simpl in Heq. subst a'.
  apply filter_In in Hin as [Hin _]. apply in_map_iff. exists (a, b'). auto.
Qed.

Lemma cleanup_to_remove_In (reg : Registry) now max_age k :
  In k (map fst (List.filter (fun '(tid, record) =>
                            is_terminal (state record)
                            && (max_age <? now - created_at record))
               (map_to_list reg))) <->
  exists r, reg !! k = Some r /\
    is_terminal (state r) && (max_age <? now - created_at r) = true.
Proof.
  split.
  - intros Hin. apply in_map_iff in Hin as ([k' r] & Heq & Hin). simpl in Heq. subst k'.
    apply filter_In in Hin as [Hin Hp]. exists r. split; [|exact Hp].
    apply elem_of_map_to_list, list_elem_of_In, Hin.
  - intros (r & Hr & Hp). apply in_map_iff. exists (k, r). split; [reflexivity|].
    apply filter_In. split; [|exact Hp].
    apply list_elem_of_In, elem_of_map_to_list, Hr.
Qed.

(** X1: [TransferRegistry.cleanup(max_age_seconds)] at clock [now] removes exactly the records in [done] or [error] created more than [max_age_seconds] before [now]; every other record stays as it was, and the count it returns plus the number of records left is the number of records before. *)
Theorem cleanup_removes_old_terminal_records (reg : Registry) (now max_age_seconds : Z) :
  (forall tid,
     fst (cleanup reg now max_age_seconds) !! tid =
       match reg !! tid with
       | Some r =>
           if is_terminal (state r) && (max_age_seconds <? now - created_at r)
           then None else Some r
       | None => None
       end) /\
  (snd (cleanup reg now max_age_seconds) + size (fst (cleanup reg now max_age_seconds))
     = size reg)%nat.
Proof.
  unfold cleanup; simpl. split.
  - intros tid. rewrite fold_delete_lookup. case_bool_decide as Hin;
      rewrite list_elem_of_In in Hin.
    + apply cleanup_to_remove_In in Hin as (r & Hr & Hp). rewrite Hr, Hp. reflexivity.
    + destruct (reg !! tid) as [r|] eqn:Hr; [|reflexivity].
      destruct (_ && _) eqn:Hp; [|reflexivity].
      exfalso. apply Hin, cleanup_to_remove_In. eauto.
  - apply fold_delete_size.
    + apply NoDup_map_fst_filter, NoDup_fst_map_to_list.
    + intros k Hk. apply cleanup_to_remove_In in Hk as (r & Hr & _). rewrite Hr. eauto.
Qed.

(** X2: two [update] calls on the same id, with field lists [kws1] then [kws2], leave the registry (and return the record) that one [update] with [kws1 ++ kws2] does; on an unknown id both do nothing. *)
Theorem update_update_fuse (reg : Registry) (tid : string) (kws1 kws2 : list FieldUpdate) :
  update (fst (update reg tid kws1)) tid kws2 = update reg tid (kws1 ++ kws2).
Proof.
  unfold update. destruct (reg !! tid) as [r|] eqn:Hr; simpl; [|rewrite Hr; reflexivity].
  rewrite lookup_insert_eq, insert_insert_eq. unfold apply_kwargs. rewrite fold_left_app.
  reflexivity.
Qed.

Lemma throttle_step (n : nat) (ps : list (list Byte.byte)) (x : list Byte.byte) :
  n = length ps ->
  ((Z.of_nat n + 1) mod update_every = 0 -> (64 * (length (ps ++ [x]) / 64))%nat = length (ps ++ [x])) /\
  ((Z.of_nat n + 1) mod update_every <> 0 ->
     take (64 * (length (ps ++ [x]) / 64)) (ps ++ [x]) = take (64 * (length ps / 64)) ps).
Proof.
  intros ->. rewrite length_app. simpl length. unfold update_every. split.
  - intros H. apply Nat2Z.inj. rewrite Nat2Z.inj_mul, Nat2Z.inj_div, Nat2Z.inj_add.
    simpl. Z.div_mod_to_equations. lia.
  - intros H. assert (Hd : ((length ps + 1) / 64 = length ps / 64)%nat).
    { apply Nat2Z.inj. rewrite !Nat2Z.inj_div, Nat2Z.inj_add. simpl.
      Z.div_mod_to_equations. nia. }
    rewrite Hd. apply take_app_le.
    pose proof (Nat.Div0.mul_div_le (length ps) 64). lia.
Qed.

Lemma update_other (reg : Registry) (tid k : string) (kws : list FieldUpdate) :
  k <> tid -> fst (update reg tid kws) !! k = reg !! k.
Proof.
  intros Hk. unfold update. destruct (reg !! tid); simpl; [|reflexivity].
  apply lookup_insert_ne. congruence.
Qed.

Lemma receive_loop_other (tid k : string) (events : list BodyEvent) :
  k <> tid -> forall (reg : Registry) content b c,
  stream_reg (receive_loop reg tid content events b c) !! k = reg !! k.
Proof.
  intros Hk. induction events as [|[x|m] events IH]; intros reg content b c; simpl;
    try reflexivity.
  rewrite IH. destruct (_ =? 0); [apply update_other, Hk|reflexivity].
Qed.

Lemma receive_loop_keeps (tid : string) (events : list BodyEvent) :
  forall (reg : Registry) content b c r, reg !! tid = Some r ->
  exists r', stream_reg (receive_loop reg tid content events b c) !! tid = Some r' /\
    transfer_id r' = transfer_id r /\ filename r' = filename r /\ state r' = state r /\
    stored_as r' = stored_as r /\ error r' = error r.
Proof.
  induction events as [|[x|m] events IH]; intros reg content b c r Hr; simpl;
    try (exists r; repeat split; assumption).
  destruct (_ =? 0).
  - destruct (IH _ (content ++ x) (b + Z.of_nat (length x)) (c + 1) _
                (update_lookup_Some _ _ _ [SetBytesReceived (b + Z.of_nat (length x))] Hr))
      as (r' & H1 & H2 & H3 & H4 & H5 & H6).
    exists r'. rewrite H2, H3, H4, H5, H6. repeat split; assumption.
  - apply (IH _ _ _ _ r Hr).
Qed.

Lemma finish_upload_other st env (reg : Registry) fs tid fname content n k :
  k <> tid ->
  transfers (fst (finish_upload st env reg fs tid fname content n)) !! k = reg !! k.
Proof.
  intros Hk. unfold finish_upload.
  destruct (String.eqb (store_as st) "msz");
    [| destruct (String.eqb (store_as st) "mzml");
       [destruct (env_decompress env content)|]];
    simpl; destruct (get _ tid); simpl; repeat rewrite update_other by exact Hk;
    reflexivity.
Qed.

(** X3: an upload never changes the registry entry of any id other than its own [X-Transfer-ID], whatever the body, the disk or the decompression do. *)
Theorem upload_isolates_other_transfers (st : Server) (env : Env) (req : Request)
    (k : string) :
  truthy (hdr_transfer_id req) <> Some k ->
  transfers (fst (upload st env req)) !! k = transfers st !! k.
Proof.
  intros Hk. unfold upload.
  destruct (truthy (hdr_transfer_id req)) as [tid|]; [|reflexivity].
  assert (Hne : k <> tid) by congruence.
  destruct (truthy (hdr_original_filename req)) as [fname|]; [|reflexivity].
  destruct (env_open_error env) as [msg|].
  - simpl. rewrite update_other by exact Hne. apply lookup_insert_ne. congruence.
  - pose proof (receive_loop_other tid k (body req) Hne
                  (fst (create (transfers st) tid fname (env_now env))) [] 0 0) as Hl.
    destruct (receive_loop _ _ _ _ _ _) as [reg content n|reg content msg]; simpl in Hl.
    + rewrite finish_upload_other by exact Hne. rewrite Hl. apply lookup_insert_ne. congruence.
    + simpl. rewrite update_other by exact Hne. rewrite Hl. apply lookup_insert_ne. congruence.
Qed.

Lemma upload_isolates_other_transfers_witness :
  truthy (hdr_transfer_id (Fixtures.req_t "b.msz" Fixtures.body_12)) <> Some "u" /\
  transfers (fst (upload (Fixtures.server "msz" {[ "u" := Fixtures.done_record ]})
                   Fixtures.env_ok (Fixtures.req_t "b.msz" Fixtures.body_12))) !! "u"
    = Some Fixtures.done_record.
Proof.
  assert (H : truthy (hdr_transfer_id (Fixtures.req_t "b.msz" Fixtures.body_12)) <> Some "u")
    by (simpl; congruence).
  split; [exact H|].
  rewrite (upload_isolates_other_transfers (Fixtures.server "msz" {[ "u" := Fixtures.done_record ]})
             Fixtures.env_ok (Fixtures.req_t "b.msz" Fixtures.body_12) "u" H).
  reflexivity.
Defined.

(** X4: an upload lacking a non-empty [X-Transfer-ID] or [X-Original-Filename] header is answered 400 (naming the transfer id header first) and changes neither the registry nor the files. *)
Theorem upload_missing_header_400 (st : Server) (env : Env) (req : Request) :
  truthy (hdr_transfer_id req) = None \/ truthy (hdr_original_filename req) = None ->
  upload st env req =
    (st, Raised 400 (match truthy (hdr_transfer_id req) with
                     | None => "Missing X-Transfer-ID header"
                     | Some _ => "Missing X-Original-Filename header"
                     end)).
Proof.
  intros H. unfold upload.
  destruct (truthy (hdr_transfer_id req)) as [tid|]; [|reflexivity].
  destruct H as [H|H]; [discriminate|]. rewrite H. reflexivity.
Qed.

Lemma upload_missing_header_400_witness :
  upload (Fixtures.server "msz" ∅) Fixtures.env_ok
         (mkRequest (Some "") (Some "a.msz") (map Chunk Fixtures.body_12))
  = (Fixtures.server "msz" ∅, Raised 400 "Missing X-Transfer-ID header").
Proof.
  exact (upload_missing_header_400 (Fixtures.server "msz" ∅) Fixtures.env_ok
           (mkRequest (Some "") (Some "a.msz") (map Chunk Fixtures.body_12))
           (or_introl eq_refl)).
Defined.

Lemma receive_loop_error_prefix (tid msg : string) (rest : list BodyEvent)
    (cs : list (list Byte.byte)) :
  forall ps (reg : Registry) r content,
  reg !! tid = Some r ->
  bytes_received r = Z.of_nat (length (concat (take (64 * (length ps / 64)) ps))) ->
  exists r',
    receive_loop reg tid content (map Chunk cs ++ StreamError msg :: rest)
      (Z.of_nat (length (concat ps))) (Z.of_nat (length ps))
    = StreamFailed (stream_reg (receive_loop reg tid content
                                  (map Chunk cs ++ StreamError msg :: rest)
                                  (Z.of_nat (length (concat ps))) (Z.of_nat (length ps))))
        (content ++ concat cs) msg /\
    stream_reg (receive_loop reg tid content (map Chunk cs ++ StreamError msg :: rest)
                  (Z.of_nat (length (concat ps))) (Z.of_nat (length ps))) !! tid = Some r' /\
    bytes_received r' = Z.of_nat (length (concat (take (64 * (length (ps ++ cs) / 64)) (ps ++ cs)))).
Proof.
  induction cs as [|x cs IH]; intros ps reg r content Hr Hb; simpl.
  - exists r. rewrite app_nil_r, !app_nil_r. auto.
  - replace (Z.of_nat (length (concat ps)) + Z.of_nat (length x))
      with (Z.of_nat (length (concat (ps ++ [x]))))
      by (rewrite concat_app, length_app; simpl; rewrite app_nil_r; lia).
    replace (Z.of_nat (length ps) + 1) with (Z.of_nat (length (ps ++ [x])))
      by (rewrite length_app; simpl; lia).
    replace (ps ++ x :: cs) with ((ps ++ [x]) ++ cs) by (rewrite <- app_assoc; reflexivity).
    replace (content ++ x ++ concat cs) with ((content ++ x) ++ concat cs)
      by (rewrite app_assoc; reflexivity).
    destruct (throttle_step (length ps) ps x eq_refl) as [Hz Hnz].
    assert (Hc : Z.of_nat (length (ps ++ [x])) = Z.of_nat (length ps) + 1)
      by (rewrite length_app; simpl; lia).
    destruct (Z.of_nat (length (ps ++ [x])) mod update_every =? 0) eqn:E.
    + apply Z.eqb_eq in E. rewrite Hc in E.
      apply (IH (ps ++ [x]) _ (apply_kwargs [SetBytesReceived (Z.of_nat (length (concat (ps ++ [x]))))] r)).
      * apply update_lookup_Some, Hr.
      * unfold apply_kwargs; cbn [fold_left setattr bytes_received]. rewrite (Hz E), take_ge by lia. reflexivity.
    + apply Z.eqb_neq in E. rewrite Hc in E.
      apply (IH (ps ++ [x]) reg r _ Hr). rewrite (Hnz E). exact Hb.
Qed.



(** X6: when the staging file cannot be opened, the upload is answered 500 with the open error, no file changes, and the record of the transfer is in [error] with that message and 0 bytes. *)
Theorem upload_open_error_500 (st : Server) (env : Env) (req : Request)
    (tid fname msg : string) :
  truthy (hdr_transfer_id req) = Some tid ->
  truthy (hdr_original_filename req) = Some fname ->
  env_open_error env = Some msg ->
  snd (upload st env req) = Raised 500 ("Error receiving data: " +:+ msg) /\
  files (fst (upload st env req)) = files st /\
  exists r, transfer_status (fst (upload st env req)) tid = (200, Some r) /\
    filename r = fname /\ state r = ERROR /\ error r = Some msg /\ bytes_received r = 0.
Proof.
  intros Htid Hfn Hopen. unfold upload. rewrite Htid, Hfn, Hopen. simpl.
  split; [reflexivity|]. split; [reflexivity|].
  eexists. unfold transfer_status, get. simpl.
  rewrite (update_lookup_Some _ _ _ _ (create_lookup (transfers st) tid fname (env_now env))).
  repeat split.
Qed.

Lemma upload_open_error_500_witness :
  snd (upload (Fixtures.server "msz" ∅) (mkEnv 5 (Some "disk full") (fun c => inr c))
         (Fixtures.req_t "a.msz" Fixtures.body_12))
    = Raised 500 "Error receiving data: disk full".
Proof.
  exact (proj1 (upload_open_error_500 (Fixtures.server "msz" ∅)
                  (mkEnv 5 (Some "disk full") (fun c => inr c))
                  (Fixtures.req_t "a.msz" Fixtures.body_12) "t" "a.msz" "disk full"
                  eq_refl eq_refl eq_refl)).
Defined.

Lemma upload_complete_record (st : Server) (env : Env) (req : Request) (tid fname : string)
    (cs : list (list Byte.byte)) :
  truthy (hdr_transfer_id req) = Some tid ->
  truthy (hdr_original_filename req) = Some fname ->
  env_open_error env = None ->
  body req = map Chunk cs ->
  exists reg r,
    reg !! tid = Some r /\
    transfer_id r = tid /\ filename r = fname /\ stored_as r = "" /\ error r = None /\
    upload st env req
      = finish_upload st env reg
          (<[staging_path (output_dir st) fname := concat cs]> (files st))
          tid fname (concat cs) (Z.of_nat (length (concat cs))).
Proof.
  intros Htid Hfn Hopen Hbody.
  pose proof (receive_loop_chunks tid cs (fst (create (transfers st) tid fname (env_now env)))
                [] 0 0 _ (create_lookup _ _ _ _)) as (reg & r & Heq & _).
  destruct (receive_loop_keeps tid (map Chunk cs)
              (fst (create (transfers st) tid fname (env_now env))) [] 0 0 _
              (create_lookup _ _ _ _)) as (r' & Hr' & H1 & H2 & _ & H4 & H5).
  rewrite Heq in Hr'. simpl in Hr'.
  exists reg, r'. split; [exact Hr'|]. repeat split; try assumption.
  unfold upload. rewrite Htid, Hfn, Hopen, Hbody, Heq. reflexivity.
Qed.

(** X7: on a server with [store_as = "msz"], an upload with both headers whose body is fully received and written is answered with the transfer id, the original filename, the staging path as [stored_as], state [done] and the body length. *)
Theorem upload_msz_response (st : Server) (env : Env) (req : Request)
    (tid fname : string) (cs : list (list Byte.byte)) :
  store_as st = "msz" ->
  truthy (hdr_transfer_id req) = Some tid ->
  truthy (hdr_original_filename req) = Some fname ->
  env_open_error env = None ->
  body req = map Chunk cs ->
  snd (upload st env req)
    = Returned (mkUploadResponse tid fname (staging_path (output_dir st) fname) DONE
                  (Z.of_nat (length (concat cs)))).
Proof.
  intros Hm Htid Hfn Hopen Hbody.
  destruct (upload_complete_record st env req tid fname cs Htid Hfn Hopen Hbody)
    as (reg & r & Hr & H1 & H2 & _ & _ & ->).
  unfold finish_upload. rewrite Hm. simpl.
  unfold get. simpl.
  rewrite (update_lookup_Some _ _ _ _ (update_lookup_Some _ _ _ _ (update_lookup_Some _ _ _ _ Hr))).
  simpl. unfold response_of. simpl. rewrite H1, H2. reflexivity.
Qed.

Lemma upload_msz_response_witness :
  snd (upload (Fixtures.server "msz" ∅) Fixtures.env_ok (Fixtures.req_t "run1.msz" Fixtures.body_12))
    = Returned (mkUploadResponse "t" "run1.msz" "out/run1.msz" DONE 2).
Proof.
  exact (upload_msz_response (Fixtures.server "msz" ∅) Fixtures.env_ok
           (Fixtures.req_t "run1.msz" Fixtures.body_12) "t" "run1.msz" Fixtures.body_12
           eq_refl eq_refl eq_refl eq_refl eq_refl).
Defined.



Lemma ascii_compare_lt (a b : ascii) :
  Ascii.compare a b = Lt <-> (N_of_ascii a < N_of_ascii b)%N.
Proof. unfold Ascii.compare. apply N.compare_lt_iff. Qed.

Lemma ascii_compare_refl (a : ascii) : Ascii.compare a a = Eq.
Proof. unfold Ascii.compare. apply N.compare_refl. Qed.

Lemma string_compare_refl (s : string) : String.compare s s = Eq.
Proof. induction s as [|c s IH]; simpl; [reflexivity|]. rewrite ascii_compare_refl. exact IH. Qed.

Lemma string_compare_trans (s1 : string) :
  forall s2 s3, String.compare s1 s2 = Lt -> String.compare s2 s3 = Lt ->
  String.compare s1 s3 = Lt.
Proof.
  induction s1 as [|x s1 IH]; intros [|y s2] [|z s3]; simpl; try discriminate; auto.
  destruct (Ascii.compare x y) eqn:Exy; try discriminate;
  destruct (Ascii.compare y z) eqn:Eyz; try discriminate.
  - apply Ascii.compare_eq_iff in Exy, Eyz. subst. rewrite ascii_compare_refl. apply IH.
  - apply Ascii.compare_eq_iff in Exy. subst. rewrite Eyz. auto.
  - apply Ascii.compare_eq_iff in Eyz. subst. rewrite Exy. auto.
  - rewrite ascii_compare_lt in Exy, Eyz.
    assert (Ascii.compare x z = Lt) as -> by (apply ascii_compare_lt; lia). auto.
Qed.

Lemma path_ltb_irrefl (p : Resolve.PathT) : Resolve.path_ltb p p = false.
Proof. induction p as [|x p IH]; simpl; [reflexivity|]. rewrite string_compare_refl. exact IH. Qed.

Lemma path_ltb_trans (p : Resolve.PathT) :
  forall q r, Resolve.path_ltb p q = true -> Resolve.path_ltb q r = true ->
  Resolve.path_ltb p r = true.
Proof.
  induction p as [|x p IH]; intros [|y q] [|z r]; simpl; try discriminate; auto.
  destruct (String.compare x y) eqn:Exy; try discriminate;
  destruct (String.compare y z) eqn:Eyz; try discriminate.
  - apply String.compare_eq_iff in Exy, Eyz. subst. rewrite string_compare_refl. apply IH.
  - apply String.compare_eq_iff in Exy. subst. rewrite Eyz. auto.
  - apply String.compare_eq_iff in Eyz. subst. rewrite Exy. auto.
  - rewrite (string_compare_trans x y z Exy Eyz). auto.
Qed.

Lemma path_ltb_total (p : Resolve.PathT) :
  forall q, p <> q -> Resolve.path_ltb p q = false -> Resolve.path_ltb q p = true.
Proof.
  induction p as [|x p IH]; intros [|y q] Hne H; simpl in H |- *; try reflexivity;
    try discriminate; [congruence|].
  rewrite String.compare_antisym in H.
  destruct (String.compare y x) eqn:E; simpl in H |- *; try reflexivity; try discriminate.
  apply String.compare_eq_iff in E. subst. apply IH; [congruence|exact H].
Qed.

Lemma insert_sorted_perm (x : Resolve.PathT) (l : list Resolve.PathT) :
  Permutation (Resolve.insert_sorted x l) (x :: l).
Proof.
  induction l as [|y l IH]; simpl; [reflexivity|].
  destruct (Resolve.path_ltb y x); [|reflexivity].
  rewrite IH. apply perm_swap.
Qed.

Lemma insert_sorted_sorted (x : Resolve.PathT) (l : list Resolve.PathT) :
  StronglySorted path_lt l -> ~ In x l -> StronglySorted path_lt (Resolve.insert_sorted x l).
Proof.
  induction l as [|y l IH]; intros Hs Hx; simpl.
  - repeat constructor.
  - apply StronglySorted_inv in Hs as [Hs Hy].
    destruct (Resolve.path_ltb y x) eqn:Eyx.
    + constructor; [apply IH; [exact Hs | intros H; apply Hx; right; exact H]|].
      apply Forall_forall. intros z Hz. apply list_elem_of_In in Hz.
      apply (Permutation_in _ (insert_sorted_perm x l)) in Hz as [<-|Hz]; [exact Eyx|].
      rewrite Forall_forall in Hy. apply Hy, list_elem_of_In, Hz.
    + assert (Hxy : path_lt x y).
      { apply path_ltb_total; [|exact Eyx]. intros ->. apply Hx. left. reflexivity. }
      constructor; [constructor; assumption|].
      constructor; [exact Hxy|].
      rewrite Forall_forall in Hy |- *. intros z Hz.
      exact (path_ltb_trans x y z Hxy (Hy z Hz)).
Qed.

Lemma sort_perm (l : list Resolve.PathT) : Permutation (Resolve.sort l) l.
Proof.
  induction l as [|x l IH]; simpl; [reflexivity|].
  rewrite insert_sorted_perm, IH. reflexivity.
Qed.

Lemma sort_sorted (l : list Resolve.PathT) :
  List.NoDup l -> StronglySorted path_lt (Resolve.sort l).
Proof.
  induction l as [|x l IH]; intros Hnd; simpl; [constructor|].
  apply List.NoDup_cons_iff in Hnd as [Hx Hnd].
  apply insert_sorted_sorted; [apply IH, Hnd|].
  intros H. apply Hx. apply (Permutation_in _ (sort_perm l)), H.
Qed.

Lemma dedup_fold (l : list Resolve.PathT) :
  forall acc, (List.NoDup acc -> List.NoDup
     (fold_left (fun acc x => if bool_decide (x ∈ acc) then acc else acc ++ [x]) l acc)) /\
  (forall y, In y (fold_left (fun acc x => if bool_decide (x ∈ acc) then acc else acc ++ [x]) l acc)
             <-> In y acc \/ In y l).
Proof.
  induction l as [|x l IH]; intros acc; simpl.
  - split; [auto|]. intros y. tauto.
  - case_bool_decide as Hx; rewrite list_elem_of_In in Hx.
    + destruct (IH acc) as [H1 H2]. split; [exact H1|].
      intros y. rewrite H2. split; [tauto|]. intros [H|[<-|H]]; auto.
    + destruct (IH (acc ++ [x])) as [H1 H2]. split.
      * intros Hnd. apply H1.
        apply (Permutation_NoDup (Permutation_cons_append acc x)).
        constructor; assumption.
      * intros y. rewrite H2, in_app_iff. simpl. tauto.
Qed.

Lemma dedup_NoDup (l : list Resolve.PathT) : List.NoDup (Resolve.dedup l).
Proof. apply (proj1 (dedup_fold l [])). constructor. Qed.

Lemma dedup_In (l : list Resolve.PathT) y : In y (Resolve.dedup l) <-> In y l.
Proof. unfold Resolve.dedup. rewrite (proj2 (dedup_fold l []) y). simpl. tauto. Qed.

(** X9: a list returned by [resolve_inputs] is non-empty, has no duplicates and is strictly increasing in the path order of [sorted]. *)
Theorem resolve_inputs_sorted_unique (fs : Resolve.Fs) (paths : list string)
    (recursive : bool) (l : list Resolve.PathT) :
  Resolve.resolve_inputs fs paths recursive = Some l ->
  l <> [] /\ List.NoDup l /\ StronglySorted (fun p q => Resolve.path_ltb p q = true) l.
Proof.
  unfold Resolve.resolve_inputs.
  destruct (fold_left _ paths []) as [|p0 ps] eqn:Hr; [discriminate|].
  intros H. injection H as <-.
  assert (Hs : StronglySorted path_lt (Resolve.sort (Resolve.dedup (p0 :: ps))))
    by (apply sort_sorted, dedup_NoDup).
  split; [|split; [|exact Hs]].
  - intros Hnil. assert (Hin : In p0 (Resolve.sort (Resolve.dedup (p0 :: ps)))).
    { apply (Permutation_in _ (Permutation_sym (sort_perm _))), dedup_In. left. reflexivity. }
    rewrite Hnil in Hin. destruct Hin.
  - apply (Permutation_NoDup (Permutation_sym (sort_perm _))), dedup_NoDup.
Qed.

Lemma resolve_inputs_sorted_unique_witness :
  Resolve.resolve_inputs Fixtures.fs_d ["d"; "d/a.msz"; "d/x.mszx"] false
    = Some [["d"; "a.msz"]; ["d"; "x.mszx"]] /\
  List.NoDup [["d"; "a.msz"]; ["d"; "x.mszx"]].
Proof.
  assert (H : Resolve.resolve_inputs Fixtures.fs_d ["d"; "d/a.msz"; "d/x.mszx"] false
                = Some [["d"; "a.msz"]; ["d"; "x.mszx"]]) by (vm_compute; reflexivity).
  split; [exact H|].
  exact (proj1 (proj2 (resolve_inputs_sorted_unique Fixtures.fs_d ["d"; "d/a.msz"; "d/x.mszx"]
                          false _ H))).
Defined.

Lemma strip_prefix_app (pre rest : Resolve.PathT) :
  Resolve.strip_prefix pre (pre ++ rest) = Some rest.
Proof.
  induction pre as [|x pre IH]; simpl; [reflexivity|]. rewrite String.eqb_refl. exact IH.
Qed.

Lemma last_name_snoc (p : Resolve.PathT) (n : string) : Resolve.last_name (p ++ [n]) = n.
Proof. unfold Resolve.last_name. rewrite last_snoc. reflexivity. Qed.

Lemma resolve_one_mono (fs : Resolve.Fs) (recursive : bool) (result : list Resolve.PathT)
    (p : string) (x : Resolve.PathT) :
  In x result -> In x (Resolve.resolve_one fs recursive result p).
Proof.
  intros Hx. unfold Resolve.resolve_one.
  destruct (fs !! PyPath.rel_parts p) as [[|]|]; [| |exact Hx].
  - destruct (Resolve.in_list _ _); [apply in_or_app; left|]; exact Hx.
  - apply dedup_In. generalize result Hx. clear.
    induction Resolve.dir_patterns as [|e es IH]; intros acc Hx; simpl; [exact Hx|].
    apply IH. apply in_or_app. left. exact Hx.
Qed.

Lemma fold_resolve_In (fs : Resolve.Fs) (recursive : bool) (x : Resolve.PathT)
    (paths : list string) (a : string) :
  In a paths ->
  (forall result, In x (Resolve.resolve_one fs recursive result a)) ->
  forall acc, In x (fold_left (Resolve.resolve_one fs recursive) paths acc).
Proof.
  intros Ha Hstep. induction paths as [|b paths IH]; intros acc; [destruct Ha|].
  simpl. destruct Ha as [->|Ha].
  - generalize (Hstep acc). generalize (Resolve.resolve_one fs recursive acc a).
    clear IH. induction paths as [|c paths IH']; intros r Hr; simpl; [exact Hr|].
    apply IH'. apply resolve_one_mono, Hr.
  - apply IH, Ha.
Qed.

Lemma resolve_inputs_In (fs : Resolve.Fs) (paths : list string) (recursive : bool)
    (x : Resolve.PathT) :
  In x (fold_left (Resolve.resolve_one fs recursive) paths []) ->
  exists l, Resolve.resolve_inputs fs paths recursive = Some l /\ In x l.
Proof.
  intros Hx. unfold Resolve.resolve_inputs.
  destruct (fold_left _ paths []) as [|p0 ps]; [destruct Hx|].
  eexists. split; [reflexivity|].
  apply (Permutation_in _ (Permutation_sym (sort_perm _))), dedup_In, Hx.
Qed.

(** X10: [resolve_inputs] keeps every argument that is an existing file with a supported suffix (any case), and every entry of a directory argument whose name ends in one of the four glob suffixes, in both the recursive and the flat mode. *)
Theorem resolve_inputs_includes_inputs (fs : Resolve.Fs) (paths : list string)
    (recursive : bool) (a : string) :
  In a paths ->
  (fs !! PyPath.rel_parts a = Some Resolve.IsFile ->
   Resolve.in_list (Resolve.lower (PyPath.suffix a)) Resolve.VALID_EXTENSIONS = true ->
   exists l, Resolve.resolve_inputs fs paths recursive = Some l /\
             In (PyPath.rel_parts a) l) /\
  (forall n, fs !! PyPath.rel_parts a = Some Resolve.IsDir ->
   is_Some (fs !! (PyPath.rel_parts a ++ [n])) ->
   existsb (fun ext => Resolve.ends_with ext n) Resolve.dir_patterns = true ->
   exists l, Resolve.resolve_inputs fs paths recursive = Some l /\
             In (PyPath.rel_parts a ++ [n]) l).
Proof.
  intros Ha. split.
  - intros Hf Hext. apply resolve_inputs_In.
    apply (fold_resolve_In fs recursive _ paths a Ha).
    intros result. unfold Resolve.resolve_one. rewrite Hf.
    replace (Resolve.in_list _ _) with true by (symmetry; exact Hext).
    apply in_or_app. right. left. reflexivity.
  - intros n Hd [k Hk] Hn. apply resolve_inputs_In.
    apply (fold_resolve_In fs recursive _ paths a Ha).
    intros result. unfold Resolve.resolve_one. rewrite Hd. apply dedup_In.
    apply existsb_exists in Hn as (ext & Hext & Hn).
    assert (Hg : In (PyPath.rel_parts a ++ [n])
                   (if recursive then Resolve.rglob fs (PyPath.rel_parts a) ext
                    else Resolve.glob fs (PyPath.rel_parts a) ext)).
    { assert (He : In (PyPath.rel_parts a ++ [n]) (Resolve.entries fs)).
      { unfold Resolve.entries. apply in_map_iff. exists (PyPath.rel_parts a ++ [n], k).
        split; [reflexivity|]. apply list_elem_of_In, elem_of_map_to_list, Hk. }
      destruct recursive; apply filter_In; (split; [exact He|]);
        rewrite strip_prefix_app; [rewrite last_name_snoc|]; exact Hn. }
    generalize result. clear Hk Hd. revert Hext.
    generalize Resolve.dir_patterns. intros pats Hext.
    induction pats as [|e es IH]; intros acc; [destruct Hext|].
    simpl. destruct Hext as [->|Hext].
    + assert (Hl : forall l0, In (PyPath.rel_parts a ++ [n]) l0 ->
                   In (PyPath.rel_parts a ++ [n])
                     (fold_left (fun acc0 ext0 => acc0 ++ (if recursive
                        then Resolve.rglob fs (PyPath.rel_parts a) ext0
                        else Resolve.glob fs (PyPath.rel_parts a) ext0)) es l0)).
      { clear IH. induction es as [|e' es' IH']; intros l0 Hl0; simpl; [exact Hl0|].
        apply IH', in_or_app. left. exact Hl0. }
      apply Hl. apply in_or_app. right. exact Hg.
    + apply IH, Hext.
Qed.

Lemma resolve_inputs_includes_inputs_witness :
  In "d" ["d"] /\
  exists l, Resolve.resolve_inputs Fixtures.fs_d ["d"] false = Some l /\
            In (PyPath.rel_parts "d" ++ ["a.msz"]) l.
Proof.
  assert (Ha : In "d" ["d"]) by (left; reflexivity).
  split; [exact Ha|].
  apply (proj2 (resolve_inputs_includes_inputs Fixtures.fs_d ["d"] false "d" Ha) "a.msz").
  - vm_compute. reflexivity.
  - vm_compute. eexists. reflexivity.
  - vm_compute. reflexivity.
Defined.

Lemma yielded_counting (chunks : list (list Byte.byte)) (cb : bool) :
  Chunks.yielded (Chunks.counting_generator chunks cb) = chunks.
Proof.
  induction chunks as [|c cs IH]; [reflexivity|].
  unfold Chunks.counting_generator, Chunks.yielded in *. simpl.
  rewrite flat_map_app. destruct cb; simpl; rewrite IH; reflexivity.
Qed.

Lemma counting_generator_cons (c : list Byte.byte) cs cb :
  Chunks.counting_generator (c :: cs) cb
  = Chunks.emit cb c ++ Chunks.counting_generator cs cb.
Proof. reflexivity. Qed.

(** X11: [_counting_generator] yields its input chunks unchanged and in order, and with a callback the counts it reports add up to the total number of bytes. *)
Theorem counting_generator_reports_every_byte (chunks : list (list Byte.byte)) (cb : bool) :
  Chunks.yielded (Chunks.counting_generator chunks cb) = chunks /\
  Chunks.progress_total (Chunks.counting_generator chunks cb)
    = (if cb then Z.of_nat (length (concat chunks)) else 0).
Proof.
  split; [apply yielded_counting|].
  induction chunks as [|c cs IH]; [destruct cb; reflexivity|].
  rewrite counting_generator_cons. unfold Chunks.progress_total in *.
  rewrite fold_right_app. simpl.
  destruct cb; simpl in *; rewrite ?IH; [rewrite length_app; lia|reflexivity].
Qed.

Lemma chunk_loop_pos (n : Z) (cb : bool) (Hn : 0 < n) :
  forall fuel rest, (length rest < fuel)%nat ->
  exists chunks,
    Chunks.chunk_loop fuel rest n cb = Chunks.counting_generator chunks cb /\
    concat chunks = rest /\
    Forall (fun c => c <> [] /\ (length c <= Z.to_nat n)%nat) chunks /\
    (forall i, (S i < length chunks)%nat -> length (nth i chunks []) = Z.to_nat n).
Proof.
  assert (Hk : exists k, Z.to_nat n = S k) by (exists (Z.to_nat n - 1)%nat; lia).
  destruct Hk as [k Hk].
  induction fuel as [|f IH]; intros rest Hl; [lia|].
  simpl. unfold Chunks.read. replace (n <? 0) with false by lia. rewrite Hk in *.
  destruct rest as [|b bs].
  - exists []. repeat split; [constructor|simpl; intros; lia].
  - destruct (IH (skipn (S k) (b :: bs))) as (cs & H1 & H2 & H3 & H4).
    { rewrite length_skipn. simpl in *; lia. }
    exists (firstn (S k) (b :: bs) :: cs). simpl firstn. rewrite H1.
    split; [reflexivity|].
    split; [simpl in H2 |- *; rewrite H2; f_equal; apply take_drop|].
    split.
    + constructor; [|exact H3]. split; [discriminate|].
      change (length (take (S k) (b :: bs)) <= S k)%nat. rewrite length_take. lia.
    + intros [|i] Hi; simpl in Hi |- *; [|apply H4; lia].
      destruct cs as [|c' cs']; [simpl in Hi; lia|].
      assert (Hne : skipn k bs <> []).
      { change (skipn (S k) (b :: bs) <> []). rewrite <- H2. simpl.
        inversion H3 as [|? ? [Hc _]]. destruct c'; [congruence|discriminate]. }
      rewrite length_take.
      assert (k < length bs)%nat.
      { destruct (decide (k < length bs)%nat); [assumption|].
        exfalso. apply Hne. apply skipn_all2. lia. }
      lia.
Qed.

(** X12: for a positive [chunk_size], [_file_chunk_generator] yields non-empty chunks of at most [chunk_size] bytes whose concatenation is the file, all but the last of exactly [chunk_size] bytes, each preceded by a callback call with its length. *)
Theorem file_chunk_generator_chunks (content : list Byte.byte) (chunk_size : Z) (cb : bool) :
  0 < chunk_size ->
  let chunks := Chunks.yielded (Chunks.file_chunk_generator content chunk_size cb) in
  Chunks.file_chunk_generator content chunk_size cb = Chunks.counting_generator chunks cb /\
  concat chunks = content /\
  Forall (fun c => c <> [] /\ (length c <= Z.to_nat chunk_size)%nat) chunks /\
  (forall i, (S i < length chunks)%nat -> length (nth i chunks []) = Z.to_nat chunk_size).
Proof.
  intros Hn chunks. subst chunks.
  destruct (chunk_loop_pos chunk_size cb Hn (S (length content)) content ltac:(lia))
    as (cs & H1 & H2 & H3 & H4).
  unfold Chunks.file_chunk_generator. rewrite H1, yielded_counting.
  repeat split; assumption.
Qed.

Lemma file_chunk_generator_chunks_witness :
  Chunks.yielded (Chunks.file_chunk_generator [Byte.x01; Byte.x02; Byte.x03] 2 true)
    = [[Byte.x01; Byte.x02]; [Byte.x03]] /\
  concat [[Byte.x01; Byte.x02]; [Byte.x03]] = [Byte.x01; Byte.x02; Byte.x03].
Proof.
  split; [vm_compute; reflexivity|].
  exact (proj1 (proj2 (file_chunk_generator_chunks [Byte.x01; Byte.x02; Byte.x03] 2 true
                          ltac:(lia)))).
Defined.

(** X13: with [chunk_size = 0], [_file_chunk_generator] yields nothing; with a negative [chunk_size] it yields the whole file as one chunk (nothing for an empty file). *)
Theorem file_chunk_generator_nonpositive (content : list Byte.byte) (chunk_size : Z)
    (cb : bool) :
  chunk_size <= 0 ->
  Chunks.file_chunk_generator content chunk_size cb =
    if chunk_size =? 0 then []
    else match content with [] => [] | _ :: _ => Chunks.emit cb content end.
Proof.
  intros Hn. unfold Chunks.file_chunk_generator. simpl. unfold Chunks.read.
  destruct (Z.eqb_spec chunk_size 0) as [->|Hne].
  - simpl. destruct content; reflexivity.
  - replace (chunk_size <? 0) with true by lia.
    destruct content as [|b bs]; [reflexivity|].
    simpl length. simpl. unfold Chunks.read. replace (chunk_size <? 0) with true by lia.
    apply app_nil_r.
Qed.

Lemma file_chunk_generator_nonpositive_witness :
  Chunks.file_chunk_generator [Byte.x01; Byte.x02] (-1) true
    = [Chunks.Progress 2; Chunks.Yield [Byte.x01; Byte.x02]].
Proof.
  exact (file_chunk_generator_nonpositive [Byte.x01; Byte.x02] (-1) true ltac:(lia)).
Defined.

Lemma file_chunk_generator_neg (content : list Byte.byte) (chunk_size : Z) (cb : bool) :
  chunk_size < 0 ->
  Chunks.file_chunk_generator content chunk_size cb =
    match content with [] => [] | _ :: _ => Chunks.emit cb content end.
Proof.
  intros Hn. unfold Chunks.file_chunk_generator. simpl. unfold Chunks.read.
  replace (chunk_size <? 0) with true by lia.
  destruct content as [|b bs]; [reflexivity|].
  simpl length. simpl. unfold Chunks.read. replace (chunk_size <? 0) with true by lia.
  apply app_nil_r.
Qed.

Lemma concat_yielded_file (content : list Byte.byte) (chunk_size : Z) (cb : bool) :
  chunk_size <> 0 ->
  concat (Chunks.yielded (Chunks.file_chunk_generator content chunk_size cb)) = content.
Proof.
  intros Hn. destruct (Z.lt_trichotomy chunk_size 0) as [Hlt|[Heq|Hgt]]; [|contradiction|].
  - rewrite file_chunk_generator_neg by exact Hlt.
    destruct content as [|b bs]; [reflexivity|].
    unfold Chunks.emit, Chunks.yielded. destruct cb; simpl; rewrite app_nil_r; reflexivity.
  - destruct (chunk_loop_pos chunk_size cb Hgt (S (length content)) content ltac:(lia))
      as (cs & H1 & H2 & _).
    unfold Chunks.file_chunk_generator. rewrite H1, yielded_counting. exact H2.
Qed.

(** X16: for an [msz] or [mszx] file and a server that sees only the bytes of the body, [send_file] has the same outcome for every non-zero [chunk_size]. *)
Theorem send_file_chunk_size_irrelevant (file_path : string) (timeout cs1 cs2 : Z)
    (env : Send.SendEnv) :
  Send.se_filetype env = "msz" \/ Send.se_filetype env = "mszx" ->
  (forall b1 b2, concat b1 = concat b2 -> Send.se_post env b1 = Send.se_post env b2) ->
  cs1 <> 0 -> cs2 <> 0 ->
  Send.send_file file_path timeout cs1 env = Send.send_file file_path timeout cs2 env.
Proof.
  intros Hft Hpost H1 H2. unfold Send.send_file.
  destruct Hft as [Hft|Hft]; rewrite Hft; simpl;
    rewrite (Hpost (Chunks.yielded (Chunks.file_chunk_generator (Send.se_file env) cs1 true))
                   (Chunks.yielded (Chunks.file_chunk_generator (Send.se_file env) cs2 true)))
      by (rewrite !concat_yielded_file by assumption; reflexivity);
    reflexivity.
Qed.

Lemma send_file_chunk_size_irrelevant_witness :
  Send.send_file "a.msz" 10 (-1) (Send.mkSendEnv "msz" [Byte.x01; Byte.x02; Byte.x03] [] Fixtures.post_total 0 [])
  = Send.send_file "a.msz" 10 2 (Send.mkSendEnv "msz" [Byte.x01; Byte.x02; Byte.x03] [] Fixtures.post_total 0 []).
Proof.
  exact (send_file_chunk_size_irrelevant "a.msz" 10 (-1) 2
           (Send.mkSendEnv "msz" [Byte.x01; Byte.x02; Byte.x03] [] Fixtures.post_total 0 [])
           (or_introl eq_refl)
           (fun b1 b2 H => f_equal (fun c => inr (mkUploadResponse "id" "a.msz" "out/a.msz" DONE
                                                  (Z.of_nat (length c)))) H)
           ltac:(lia) ltac:(lia)).
Defined.

(** X17: with [chunk_size = 0], [send_file] posts no byte of an [msz] or [mszx] file: its outcome is that of the same call on an empty file. *)
Theorem send_file_zero_chunk_size (file_path : string) (timeout : Z) (env : Send.SendEnv) :
  Send.send_file file_path timeout 0 env =
  Send.send_file file_path timeout 1
    (Send.mkSendEnv (Send.se_filetype env) [] (Send.se_compressed env) (Send.se_post env)
                    (Send.se_poll_t0 env) (Send.se_poll_trace env)).
Proof.
  unfold Send.send_file. simpl.
  replace (Chunks.file_chunk_generator (Send.se_file env) 0 true) with (@nil Chunks.GenEvent)
    by (unfold Chunks.file_chunk_generator; simpl; destruct (Send.se_file env); reflexivity).
  reflexivity.
Qed.

Lemma prefix_app (p t : string) : String.prefix p (p +:+ t) = true.
Proof.
  induction p as [|c p IH]; simpl; [destruct t; reflexivity|].
  destruct (ascii_dec c c); [exact IH|congruence].
Qed.

Lemma prefix_true (p s : string) :
  String.prefix p s = true -> exists t, s = p +:+ t.
Proof.
  revert s. induction p as [|c p IH]; intros s H; [exists s; reflexivity|].
  destruct s as [|d s]; simpl in H; [discriminate|].
  destruct (ascii_dec c d) as [->|]; [|discriminate].
  destruct (IH s H) as [t ->]. exists t. reflexivity.
Qed.

Lemma substring_full (t : string) : substring 0 (String.length t) t = t.
Proof. induction t as [|c t IH]; simpl; [reflexivity|]. rewrite IH. reflexivity. Qed.

Lemma removeprefix_app (p t : string) : Auth.removeprefix p (p +:+ t) = t.
Proof.
  unfold Auth.removeprefix. rewrite prefix_app.
  induction p as [|c p IH]; simpl.
  - rewrite Nat.sub_0_r. apply substring_full.
  - exact IH.
Qed.

Lemma is_ascii_app (p t : string) :
  Auth.is_ascii (p +:+ t) = Auth.is_ascii p && Auth.is_ascii t.
Proof.
  unfold Auth.is_ascii. induction p as [|c p IH]; simpl; [reflexivity|].
  rewrite IH. apply andb_assoc.
Qed.

Lemma string_app_inj (p t u : string) : p +:+ t = p +:+ u -> t = u.
Proof. induction p as [|c p IH]; simpl; [auto|]. intros H. injection H. exact IH. Qed.

(** X18: when the key and the provided header and query values are ASCII, [APIKeyAuthProvider.authenticate] accepts exactly the requests whose [Authorization] header is ["Bearer " + key] or whose [api_key] query parameter is the key, and rejects every other one with 401 ["Invalid or missing API key"]. *)
Theorem authenticate_ascii (api_key : string) (authorization query_key : option string) :
  Auth.is_ascii api_key = true ->
  (forall h, authorization = Some h -> Auth.is_ascii h = true) ->
  (forall q, query_key = Some q -> Auth.is_ascii q = true) ->
  Auth.authenticate api_key authorization query_key =
    if bool_decide (authorization = Some ("Bearer " +:+ api_key) \/ query_key = Some api_key)
    then Auth.Authenticated "api-key"
    else Auth.AuthRaised 401 "Invalid or missing API key".
Proof.
  intros Hk Ha Hq. unfold Auth.authenticate.
  assert (Hquery :
    match query_key with
    | Some q =>
        match Auth.compare_digest q api_key with
        | inl msg => Auth.AuthTypeError msg
        | inr true => Auth.Authenticated "api-key"
        | inr false => Auth.AuthRaised 401 "Invalid or missing API key"
        end
    | None => Auth.AuthRaised 401 "Invalid or missing API key"
    end =
    if bool_decide (query_key = Some api_key) then Auth.Authenticated "api-key"
    else Auth.AuthRaised 401 "Invalid or missing API key").
  { destruct query_key as [q|].
    - unfold Auth.compare_digest. rewrite (Hq q eq_refl), Hk. simpl.
      destruct (String.eqb_spec q api_key) as [->|Hne].
      + rewrite bool_decide_eq_true_2; reflexivity.
      + rewrite bool_decide_eq_false_2; [reflexivity|congruence].
    - rewrite bool_decide_eq_false_2; [reflexivity|discriminate]. }
  destruct (String.prefix "Bearer " (default "" authorization)) eqn:Ep.
  - destruct (prefix_true _ _ Ep) as [t Et].
    assert (Hat : authorization = Some ("Bearer " +:+ t)).
    { destruct authorization as [h|]; simpl in Et; [congruence|discriminate]. }
    rewrite Et, removeprefix_app.
    pose proof (Ha _ Hat) as Hh. rewrite is_ascii_app in Hh.
    apply andb_prop in Hh as [_ Ht].
    assert (Hc : Auth.compare_digest t api_key = inr (String.eqb t api_key)).
    { unfold Auth.compare_digest. rewrite Ht, Hk. reflexivity. }
    rewrite Hc.
    destruct (String.eqb_spec t api_key) as [->|Hne].
    + rewrite bool_decide_eq_true_2; [reflexivity|left; exact Hat].
    + rewrite Hquery. rewrite Hat.
      destruct (bool_decide (query_key = Some api_key)) eqn:Eq.
      * apply bool_decide_eq_true_1 in Eq. rewrite bool_decide_eq_true_2; [reflexivity|right; exact Eq].
      * apply bool_decide_eq_false_1 in Eq. rewrite bool_decide_eq_false_2; [reflexivity|].
        intros [H|H]; [|contradiction]. apply Hne. injection H. apply string_app_inj.
  - rewrite Hquery.
    assert (Hnot : authorization <> Some ("Bearer " +:+ api_key)).
    { intros ->. simpl in Ep. rewrite prefix_app in Ep. discriminate. }
    destruct (bool_decide (query_key = Some api_key)) eqn:Eq.
    + apply bool_decide_eq_true_1 in Eq. rewrite bool_decide_eq_true_2; [reflexivity|right; exact Eq].
    + apply bool_decide_eq_false_1 in Eq. rewrite bool_decide_eq_false_2; [reflexivity|].
      intros [H|H]; contradiction.
Qed.

Lemma authenticate_ascii_witness :
  Auth.authenticate "k" (Some "Bearer x") (Some "k") = Auth.Authenticated "api-key".
Proof.
  rewrite (authenticate_ascii "k" (Some "Bearer x") (Some "k") eq_refl
             ltac:(intros h Hh; injection Hh as <-; reflexivity)
             ltac:(intros q Hq; injection Hq as <-; reflexivity)).
  reflexivity.
Defined.

(** X19: a bearer token with a non-ASCII character makes [authenticate] raise the [TypeError] of [hmac.compare_digest], whatever the query parameter. *)
Theorem authenticate_non_ascii_token (api_key : string) (t : string)
    (query_key : option string) :
  Auth.is_ascii t = false ->
  Auth.authenticate api_key (Some ("Bearer " +:+ t)) query_key =
    Auth.AuthTypeError "comparing strings with non-ASCII characters is not supported".
Proof.
  intros Ht. unfold Auth.authenticate. simpl default.
  rewrite prefix_app, removeprefix_app. unfold Auth.compare_digest. rewrite Ht. reflexivity.
Qed.

Lemma authenticate_non_ascii_token_witness :
  Auth.authenticate "k" (Some ("Bearer " +:+ String (ascii_of_nat 233) EmptyString)) (Some "k") =
    Auth.AuthTypeError "comparing strings with non-ASCII characters is not supported".
Proof.
  exact (authenticate_non_ascii_token "k" (String (ascii_of_nat 233) EmptyString) (Some "k")
           eq_refl).
Defined.

Lemma digit_value_char (d : Z) : 0 <= d < 10 -> Cli.digit_value (Cli.digit_char d) = Some d.
Proof.
  intros Hd. unfold Cli.digit_value, Cli.digit_char.
  assert (Hn : nat_of_ascii (ascii_of_nat (48 + Z.to_nat d)) = (48 + Z.to_nat d)%nat).
  { apply nat_ascii_embedding. lia. }
  rewrite Hn. replace ((48 <=? 48 + Z.to_nat d)%nat && (48 + Z.to_nat d <=? 57)%nat) with true.
  - f_equal. lia.
  - symmetry. apply andb_true_intro. split; apply Nat.leb_le; lia.
Qed.

Lemma str_digits_S (f : nat) (n : Z) (acc : string) :
  Cli.str_digits (S f) n acc =
    if n <? 10 then String (Cli.digit_char (n mod 10)) acc
    else Cli.str_digits f (n / 10) (String (Cli.digit_char (n mod 10)) acc).
Proof. reflexivity. Qed.

Lemma append_cons (c : ascii) (s r : string) : String c s +:+ r = String c (s +:+ r).
Proof. reflexivity. Qed.

Lemma append_nil (r : string) : "" +:+ r = r.
Proof. reflexivity. Qed.

Lemma str_app_assoc (a b c : string) : a +:+ (b +:+ c) = (a +:+ b) +:+ c.
Proof. induction a as [|x a IH]; [reflexivity|]. rewrite !append_cons, IH. reflexivity. Qed.

Lemma str_length_app (a b : string) :
  String.length (a +:+ b) = (String.length a + String.length b)%nat.
Proof. induction a as [|x a IH]; [reflexivity|]. rewrite append_cons. simpl. rewrite IH. reflexivity. Qed.

Lemma list_ascii_of_string_app' (a b : string) :
  list_ascii_of_string (a +:+ b) = list_ascii_of_string a ++ list_ascii_of_string b.
Proof. induction a as [|x a IH]; [reflexivity|]. rewrite append_cons. simpl. rewrite IH. reflexivity. Qed.

Lemma scan_digits_digit (c : ascii) (d : Z) (rest : string) (v : Z) (nd : nat) (p : bool) :
  Cli.digit_value c = Some d ->
  Cli.scan_digits (String c rest) v nd p = Cli.scan_digits rest (10 * v + d) (S nd) false.
Proof. intros H. simpl. rewrite H. reflexivity. Qed.

Lemma str_digits_spec (fuel : nat) :
  forall n acc, 0 <= n < 10 ^ Z.of_nat (S fuel) ->
  exists s k, Cli.str_digits (S fuel) n acc = s +:+ acc /\ s <> "" /\ all_digits s = true /\
    String.length s = k /\ (k = 1%nat \/ 10 ^ (Z.of_nat k - 1) <= n) /\
    forall v nd rest,
      Cli.scan_digits (s +:+ rest) v nd false
        = Cli.scan_digits rest (v * 10 ^ Z.of_nat k + n) (nd + k) false.
Proof.
  induction fuel as [|f IH]; intros n acc Hn;
    rewrite str_digits_S;
    assert (Hd : 0 <= n mod 10 < 10) by (apply Z.mod_pos_bound; lia);
    destruct (n <? 10) eqn:E.
  1, 3:
    exists (String (Cli.digit_char (n mod 10)) EmptyString), 1%nat;
    split; [reflexivity|]; split; [discriminate|];
    split; [unfold all_digits; cbn [list_ascii_of_string forallb];
            rewrite digit_value_char by lia; reflexivity|];
    split; [reflexivity|]; split; [left; reflexivity|];
    intros v nd rest; rewrite ?append_cons, ?append_nil;
    rewrite (scan_digits_digit _ (n mod 10)) by (apply digit_value_char; lia);
    rewrite Z.mod_small by (apply Z.ltb_lt in E; lia); f_equal; lia.
  - apply Z.ltb_ge in E. simpl in Hn. lia.
  - apply Z.ltb_ge in E.
    destruct (IH (n / 10) (String (Cli.digit_char (n mod 10)) acc)) as (s & k & H1 & H2 & H3 & H4 & H5 & H6).
    { split; [apply Z.div_pos; lia|].
      rewrite (Nat2Z.inj_succ (S f)), Z.pow_succ_r in Hn by lia.
      apply Z.div_lt_upper_bound; lia. }
    exists (s +:+ String (Cli.digit_char (n mod 10)) EmptyString), (S k).
    rewrite H1. split; [rewrite <- str_app_assoc; reflexivity|].
    split; [destruct s; [contradiction|discriminate]|].
    split.
    { unfold all_digits in *. rewrite list_ascii_of_string_app', forallb_app, H3.
      cbn [list_ascii_of_string forallb]. rewrite digit_value_char by lia. reflexivity. }
    split; [rewrite str_length_app; cbn [String.length]; lia|].
    split.
    assert (Hk1 : (1 <= k)%nat) by (destruct s; [contradiction|simpl in H4; lia]).
    { right. destruct H5 as [->|H5].
      - simpl. lia.
      - rewrite Nat2Z.inj_succ. replace (Z.succ (Z.of_nat k) - 1) with (Z.of_nat k - 1 + 1) by lia.
        rewrite Z.pow_add_r, Z.pow_1_r by lia. Z.div_mod_to_equations. lia. }
    intros v nd rest. rewrite <- str_app_assoc, H6. rewrite ?append_cons, ?append_nil.
    rewrite (scan_digits_digit _ (n mod 10)) by (apply digit_value_char; lia). f_equal; [|lia].
    rewrite Nat2Z.inj_succ, Z.pow_succ_r by lia. Z.div_mod_to_equations. lia.
Qed.

Lemma digit_cases (c : ascii) (d : Z) :
  Cli.digit_value c = Some d ->
  c = "0"%char \/ c = "1"%char \/ c = "2"%char \/ c = "3"%char \/ c = "4"%char \/
  c = "5"%char \/ c = "6"%char \/ c = "7"%char \/ c = "8"%char \/ c = "9"%char.
Proof.
  unfold Cli.digit_value. intros H.
  destruct ((48 <=? nat_of_ascii c)%nat && (nat_of_ascii c <=? 57)%nat) eqn:E; [|discriminate].
  apply andb_prop in E as [E1 E2]. apply Nat.leb_le in E1, E2.
  rewrite <- (ascii_nat_embedding c).
  assert (Hm : nat_of_ascii c = 48%nat \/ nat_of_ascii c = 49%nat \/ nat_of_ascii c = 50%nat \/
               nat_of_ascii c = 51%nat \/ nat_of_ascii c = 52%nat \/ nat_of_ascii c = 53%nat \/
               nat_of_ascii c = 54%nat \/ nat_of_ascii c = 55%nat \/ nat_of_ascii c = 56%nat \/
               nat_of_ascii c = 57%nat) by lia.
  destruct Hm as [->|[->|[->|[->|[->|[->|[->|[->|[->| ->]]]]]]]]];
    [left|right;left|do 2 right;left|do 3 right;left|do 4 right;left|do 5 right;left
    |do 6 right;left|do 7 right;left|do 8 right;left|do 9 right]; reflexivity.
Qed.

Lemma map_norm_digits (s : string) :
  all_digits s = true -> Cli.map_chars Cli.int_norm_char s = s.
Proof.
  induction s as [|c s IH]; [reflexivity|]. unfold all_digits. simpl.
  intros H. apply andb_prop in H as [Hc Hs].
  destruct (Cli.digit_value c) as [d|] eqn:Ed; [|discriminate].
  rewrite IH by exact Hs. f_equal.
  destruct (digit_cases c d Ed) as [->|[->|[->|[->|[->|[->|[->|[->|[->| ->]]]]]]]]]; reflexivity.
Qed.

Lemma py_int_digits (s : string) (v : Z) (k : nat) :
  s <> "" -> all_digits s = true ->
  Cli.scan_digits s 0 0 false = Some (v, k, EmptyString) ->
  (1 <= k <= Cli.int_max_str_digits)%nat ->
  Cli.py_int s = Some v /\ Cli.py_int ("-" +:+ s) = Some (- v).
Proof.
  intros Hne Hd Hs Hk. unfold Cli.py_int.
  rewrite append_cons, append_nil.
  change (Cli.map_chars Cli.int_norm_char (String "-" s))
    with (String "-" (Cli.map_chars Cli.int_norm_char s)).
  rewrite map_norm_digits by exact Hd.
  destruct s as [|c r]; [contradiction|].
  assert (Hc : exists d, Cli.digit_value c = Some d).
  { unfold all_digits in Hd. simpl in Hd. apply andb_prop in Hd as [Hc _].
    destruct (Cli.digit_value c) as [d|]; [exists d; reflexivity|discriminate]. }
  destruct Hc as [d Ed].
  assert (Hnd : ((k =? 0)%nat || (Cli.int_max_str_digits <? k)%nat || negb (Cli.all_space ""))
                = false).
  { apply orb_false_intro; [apply orb_false_intro|reflexivity];
      [apply Nat.eqb_neq | apply Nat.ltb_ge]; lia. }
  destruct (digit_cases c d Ed) as [->|[->|[->|[->|[->|[->|[->|[->|[->| ->]]]]]]]]];
    simpl in Hs |- *; rewrite Hs, Hnd; split; f_equal; lia.
Qed.

Lemma str_app_nil_r (s : string) : s +:+ "" = s.
Proof. induction s as [|c s IH]; [reflexivity|]. rewrite append_cons, IH. reflexivity. Qed.

Lemma str_digits_canonical (m : Z) :
  0 <= m < 10 ^ Z.of_nat Cli.int_max_str_digits ->
  exists s k, Cli.str_digits (S (Z.to_nat (Z.log2 m))) m "" = s /\ s <> "" /\
    all_digits s = true /\ Cli.scan_digits s 0 0 false = Some (m, k, EmptyString) /\
    (1 <= k <= Cli.int_max_str_digits)%nat.
Proof.
  intros Hm.
  destruct (str_digits_spec (Z.to_nat (Z.log2 m)) m "") as (s & k & H1 & H2 & H3 & H4 & H5 & H6).
  { split; [lia|]. rewrite Nat2Z.inj_succ, Z2Nat.id by apply Z.log2_nonneg.
    apply Z.lt_le_trans with (2 ^ Z.succ (Z.log2 m)).
    - destruct (Z.eq_dec m 0) as [->|Hne]; [reflexivity|].
      apply Z.log2_spec. lia.
    - apply Z.pow_le_mono_l. split; [lia|lia]. }
  exists s, k. rewrite str_app_nil_r in H1.
  split; [exact H1|]. split; [exact H2|]. split; [exact H3|].
  assert (Hk1 : (1 <= k)%nat) by (destruct s; [contradiction|simpl in H4; lia]).
  split.
  - rewrite <- (str_app_nil_r s), H6. simpl. repeat f_equal; lia.
  - split; [exact Hk1|]. destruct H5 as [->|H5]; [unfold Cli.int_max_str_digits; lia|].
    assert (Hlt : 10 ^ (Z.of_nat k - 1) < 10 ^ Z.of_nat Cli.int_max_str_digits) by lia.
    apply Z.pow_lt_mono_r_iff in Hlt; lia.
Qed.

Lemma py_int_str_int (z : Z) :
  Z.abs z < 10 ^ Z.of_nat Cli.int_max_str_digits -> Cli.py_int (Cli.str_int z) = Some z.
Proof.
  intros Hz. unfold Cli.str_int. destruct (z <? 0) eqn:E.
  - apply Z.ltb_lt in E.
    destruct (str_digits_canonical (- z)) as (s & k & H1 & H2 & H3 & H4 & H5); [lia|].
    rewrite H1. rewrite (proj2 (py_int_digits s (- z) k H2 H3 H4 H5)). f_equal. lia.
  - apply Z.ltb_ge in E.
    destruct (str_digits_canonical z) as (s & k & H1 & H2 & H3 & H4 & H5); [lia|].
    rewrite H1. exact (proj1 (py_int_digits s z k H2 H3 H4 H5)).
Qed.

Lemma rfind_aux_app (c : ascii) (a b : string) (i : nat) (acc : option nat) :
  PyPath.rfind_aux c (a +:+ b) i acc
  = PyPath.rfind_aux c b (i + String.length a) (PyPath.rfind_aux c a i acc).
Proof.
  revert i acc. induction a as [|d a IH]; intros i acc; simpl.
  - rewrite Nat.add_0_r. reflexivity.
  - rewrite IH. f_equal. lia.
Qed.

Lemma rfind_aux_none (c : ascii) (s : string) (i : nat) (acc : option nat) :
  ~ In c (list_ascii_of_string s) -> PyPath.rfind_aux c s i acc = acc.
Proof.
  revert i acc. induction s as [|d s IH]; intros i acc Hn; [reflexivity|].
  simpl in *. destruct (Ascii.eqb_spec d c) as [->|Hne]; [exfalso; apply Hn; left; reflexivity|].
  apply IH. intros H. apply Hn. right. exact H.
Qed.

Lemma rfind_last (host port_str : string) :
  ~ In ":"%char (list_ascii_of_string port_str) ->
  PyPath.rfind ":"%char (host +:+ ":" +:+ port_str) = Some (String.length host).
Proof.
  intros Hn. unfold PyPath.rfind. rewrite rfind_aux_app.
  rewrite append_cons, append_nil. simpl. apply rfind_aux_none, Hn.
Qed.

Lemma substring_app_l (a b : string) : substring 0 (String.length a) (a +:+ b) = a.
Proof.
  induction a as [|c a IH]; [destruct b; reflexivity|].
  rewrite append_cons. simpl. rewrite IH. reflexivity.
Qed.

Lemma substring_app_r (a b : string) (n m : nat) :
  substring (String.length a + n) m (a +:+ b) = substring n m b.
Proof. induction a as [|c a IH]; [reflexivity|]. rewrite append_cons. simpl. exact IH. Qed.

Lemma all_digits_no_colon (s : string) :
  all_digits s = true -> ~ In ":"%char (list_ascii_of_string s).
Proof.
  induction s as [|c s IH]; [intros _ []|]. unfold all_digits. simpl.
  intros H. apply andb_prop in H as [Hc Hs]. intros [->|Hin]; [discriminate|].
  exact (IH Hs Hin).
Qed.

Lemma str_int_no_colon (z : Z) :
  Z.abs z < 10 ^ Z.of_nat Cli.int_max_str_digits ->
  ~ In ":"%char (list_ascii_of_string (Cli.str_int z)).
Proof.
  intros Hz. unfold Cli.str_int. destruct (z <? 0) eqn:E.
  - apply Z.ltb_lt in E.
    destruct (str_digits_canonical (- z)) as (s & k & H1 & H2 & H3 & H4 & H5); [lia|].
    rewrite H1, append_cons, append_nil. simpl. intros [H|H]; [discriminate|].
    exact (all_digits_no_colon s H3 H).
  - apply Z.ltb_ge in E.
    destruct (str_digits_canonical z) as (s & k & H1 & H2 & H3 & H4 & H5); [lia|].
    rewrite H1. exact (all_digits_no_colon s H3).
Qed.

Lemma parse_target_split (host port_str : string) :
  String.prefix "http://" (host +:+ ":" +:+ port_str) = false ->
  String.prefix "https://" (host +:+ ":" +:+ port_str) = false ->
  ~ In ":"%char (list_ascii_of_string port_str) ->
  Cli.parse_target (host +:+ ":" +:+ port_str) =
    match Cli.py_int port_str with
    | Some port => Cli.TargetUrl ("http://" +:+ host +:+ ":" +:+ Cli.str_int port)
    | None => Cli.TargetExit 1
    end.
Proof.
  intros H1 H2 Hn. unfold Cli.parse_target. rewrite H1, H2. simpl orb. cbv iota beta.
  rewrite rfind_last by exact Hn.
  rewrite substring_app_l.
  replace (String.length (host +:+ ":" +:+ port_str) - S (String.length host))%nat
    with (String.length port_str)
    by (rewrite str_length_app, append_cons, append_nil; simpl; lia).
  replace (S (String.length host)) with (String.length host + 1)%nat by lia.
  rewrite substring_app_r, append_cons, append_nil. simpl. rewrite substring_full.
  reflexivity.
Qed.

(** X20: a scheme-less target [host:port] whose port is written as [str(port)] (at most 4300 digits) becomes ["http://" + target]; the host may itself hold colons. *)
Theorem parse_target_host_port (host : string) (port : Z) :
  String.prefix "http://" (host +:+ ":" +:+ Cli.str_int port) = false ->
  String.prefix "https://" (host +:+ ":" +:+ Cli.str_int port) = false ->
  Z.abs port < 10 ^ Z.of_nat Cli.int_max_str_digits ->
  Cli.parse_target (host +:+ ":" +:+ Cli.str_int port)
    = Cli.TargetUrl ("http://" +:+ host +:+ ":" +:+ Cli.str_int port).
Proof.
  intros H1 H2 Hp. rewrite parse_target_split by (assumption || apply str_int_no_colon, Hp).
  rewrite py_int_str_int by exact Hp. reflexivity.
Qed.

Lemma parse_target_host_port_witness :
  Cli.parse_target ("localhost" +:+ ":" +:+ Cli.str_int 8080)
    = Cli.TargetUrl ("http://" +:+ "localhost" +:+ ":" +:+ Cli.str_int 8080).
Proof.
  exact (parse_target_host_port "localhost" 8080 eq_refl eq_refl
           ltac:(vm_compute; reflexivity)).
Defined.

(** X21: a scheme-less target ending in [":"] makes [parse_target] exit with status 1. *)
Theorem parse_target_empty_port (host : string) :
  String.prefix "http://" (host +:+ ":") = false ->
  String.prefix "https://" (host +:+ ":") = false ->
  Cli.parse_target (host +:+ ":") = Cli.TargetExit 1.
Proof.
  intros H1 H2. rewrite <- (str_app_nil_r ":") in H1, H2 |- *.
  rewrite parse_target_split by (assumption || intros []). reflexivity.
Qed.

Lemma parse_target_empty_port_witness :
  Cli.parse_target ("example.org" +:+ ":") = Cli.TargetExit 1.
Proof. exact (parse_target_empty_port "example.org" eq_refl eq_refl). Defined.

Lemma prefix_has_colon (t : string) :
  String.prefix "http://" t = true \/ String.prefix "https://" t = true ->
  In ":"%char (list_ascii_of_string t).
Proof.
  intros [H|H]; destruct (prefix_true _ _ H) as [u ->];
    rewrite list_ascii_of_string_app'; apply in_or_app; left; simpl; auto 10.
Qed.

(** X22: a target without any colon becomes ["http://" + target + ":1319"]. *)
Theorem parse_target_default_port (target : string) :
  ~ In ":"%char (list_ascii_of_string target) ->
  Cli.parse_target target = Cli.TargetUrl ("http://" +:+ target +:+ ":1319").
Proof.
  intros Hn. unfold Cli.parse_target.
  destruct (String.prefix "http://" target || String.prefix "https://" target) eqn:E.
  - exfalso. apply Hn, prefix_has_colon. apply orb_true_iff, E.
  - unfold PyPath.rfind. rewrite rfind_aux_none by exact Hn. reflexivity.
Qed.

Lemma parse_target_default_port_witness :
  Cli.parse_target "example.org" = Cli.TargetUrl "http://example.org:1319".
Proof.
  exact (parse_target_default_port "example.org" ltac:(simpl; intuition discriminate)).
Defined.

Lemma cons_eq_snoc_slash (c : ascii) (r v : string) :
  String c r = v +:+ "/" -> (c = "/"%char /\ r = "") \/ exists v', r = v' +:+ "/".
Proof.
  destruct v as [|d v]; intros H.
  - left. injection H as -> ->. split; reflexivity.
  - right. exists v. rewrite append_cons in H. injection H as _ H. exact H.
Qed.

Lemma rstrip_slash_spec (s : string) :
  (exists k, s = Cli.rstrip_slash s +:+ slashes k) /\
  forall v, Cli.rstrip_slash s <> v +:+ "/".
Proof.
  induction s as [|c s [[k Hk] Hend]]; simpl.
  - split; [exists 0%nat; reflexivity|]. intros v H. destruct v; discriminate.
  - destruct (Ascii.eqb_spec c "/") as [->|Hc];
      destruct (String.eqb_spec (Cli.rstrip_slash s) "") as [Hr|Hr]; simpl.
    + split; [|intros v H; destruct v; discriminate].
      exists (S k). rewrite Hk at 1. rewrite Hr. reflexivity.
    + split; [exists k; rewrite append_cons, <- Hk; reflexivity|].
      intros v H. apply cons_eq_snoc_slash in H as [[_ H]|[v' H]]; [exact (Hr H)|exact (Hend v' H)].
    + split; [exists k; rewrite append_cons, <- Hk; reflexivity|].
      intros v H. apply cons_eq_snoc_slash in H as [[H _]|[v' H]]; [exact (Hc H)|].
      rewrite Hr in H. destruct v'; discriminate.
    + split; [exists k; rewrite append_cons, <- Hk; reflexivity|].
      intros v H. apply cons_eq_snoc_slash in H as [[H _]|[v' H]]; [exact (Hc H)|exact (Hend v' H)].
Qed.

(** X23: a target starting with [http://] or [https://] is returned with its trailing slashes removed: the target is the result followed by slashes, and the result does not end in a slash. *)
Theorem parse_target_scheme (target : string) :
  String.prefix "http://" target = true \/ String.prefix "https://" target = true ->
  exists url k, Cli.parse_target target = Cli.TargetUrl url /\
    target = url +:+ slashes k /\ forall v, url <> v +:+ "/".
Proof.
  intros H. unfold Cli.parse_target.
  replace (String.prefix "http://" target || String.prefix "https://" target) with true
    by (symmetry; apply orb_true_iff; exact H).
  destruct (rstrip_slash_spec target) as [[k Hk] Hend].
  exists (Cli.rstrip_slash target), k. split; [reflexivity|]. split; assumption.
Qed.

Lemma parse_target_scheme_witness :
  exists url k, Cli.parse_target "https://h:9//" = Cli.TargetUrl url /\
    "https://h:9//" = url +:+ slashes k /\ forall v, url <> v +:+ "/".
Proof. exact (parse_target_scheme "https://h:9//" (or_intror eq_refl)). Defined.

Lemma length_filter_negb {A} (p : A -> bool) (l : list A) :
  (length (List.filter p l) + length (List.filter (fun x => negb (p x)) l))%nat = length l.
Proof. induction l as [|x l IH]; [reflexivity|]. simpl. destruct (p x); simpl; lia. Qed.

Lemma state_value_nonempty (s : TransferState) : Cli.state_value s <> "".
Proof. destruct s; discriminate. Qed.

(** X24: the summary of [cmd_upload] reports all files transferred exactly when every result succeeded; otherwise the succeeded and failed counts add up to the number of results, and there is one line per failed result, in order, with a non-empty reason. *)
Theorem report_summary (results : list Batch.FileResult) :
  match Cli.report results with
  | Cli.AllTransferred ok =>
      ok = length results /\ Forall (fun r => Cli.succeeded r = true) results
  | Cli.SomeFailed ok fail failures =>
      (ok + fail)%nat = length results /\ (0 < fail)%nat /\ length failures = fail /\
      map fst failures
        = map Batch.fr_filename (List.filter (fun r => negb (Cli.succeeded r)) results) /\
      Forall (fun line => snd line <> "") failures
  end.
Proof.
  unfold Cli.report.
  pose proof (length_filter_negb Cli.succeeded results) as Hl.
  destruct (Nat.eqb_spec (length results - length (List.filter Cli.succeeded results)) 0)
    as [H0|H0].
  - split; [lia|].
    assert (Hn : List.filter (fun r => negb (Cli.succeeded r)) results = []).
    { destruct (List.filter (fun r => negb (Cli.succeeded r)) results); [reflexivity|simpl in Hl; lia]. }
    apply Forall_forall. intros r Hr%list_elem_of_In.
    destruct (Cli.succeeded r) eqn:Es; [reflexivity|].
    assert (Hin : In r (List.filter (fun r => negb (Cli.succeeded r)) results))
      by (apply filter_In; rewrite Es; auto).
    rewrite Hn in Hin. destruct Hin.
  - split; [lia|]. split; [lia|]. split; [rewrite length_map; lia|].
    split; [rewrite map_map; reflexivity|].
    apply Forall_forall. intros line Hline%list_elem_of_In.
    apply in_map_iff in Hline as (r & <- & _). simpl.
    unfold Cli.failure_reason.
    destruct (Batch.fr_error r) as [[|c rest]|]; try discriminate;
      destruct (Batch.fr_response r); try apply state_value_nonempty; discriminate.
Qed.

Lemma poll_loop_returns_terminal (timeout deadline : Z) (ls : option TransferState) (lb : Z)
    (trace : list Poll.PollObs) (s : TransferState) :
  Poll.poll_loop timeout deadline ls lb trace = Poll.PollReturned s -> is_terminal s = true.
Proof.
  revert deadline ls lb. induction trace as [|o trace IH]; intros deadline ls lb H;
    simpl in H; [discriminate|].
  destruct (Poll.po_check o <? deadline); [|discriminate].
  destruct (Poll.po_status o =? 200); [|eapply IH; exact H].
  destruct (is_terminal (Poll.po_state o)) eqn:Et; [injection H as <-; exact Et|].
  destruct (Poll.progressed ls lb o); eapply IH; exact H.
Qed.

(** X14: a response [send_file] returns is always in [done] or [error], and it is the upload answer of the POST with at most its state replaced (by the state the poller returned). *)
Theorem send_file_returned (file_path : string) (timeout chunk_size : Z) (env : Send.SendEnv)
    (r : UploadResponse) :
  Send.send_file file_path timeout chunk_size env = Send.SendReturned r ->
  is_terminal (ur_state r) = true /\
  exists body u, Send.se_post env body = inr u /\ r = Send.set_ur_state u (ur_state r).
Proof.
  unfold Send.send_file.
  destruct (negb (Resolve.in_list (Send.se_filetype env) Send.VALID_FORMATS)); [discriminate|].
  match goal with |- context [match ?st with Some _ => _ | None => _ end] =>
    destruct st as [evs|]; [|discriminate] end.
  destruct (Send.se_post env (Chunks.yielded evs)) as [msg|u] eqn:Ep; [discriminate|].
  destruct (is_terminal (ur_state u)) eqn:Et.
  - intros H. injection H as <-. split; [exact Et|].
    exists (Chunks.yielded evs), u. split; [exact Ep|]. destruct u; reflexivity.
  - destruct (Poll.poll_status _ _ _) as [s| |] eqn:Eps; try discriminate.
    intros H. injection H as <-. split; [exact (poll_loop_returns_terminal _ _ _ _ _ _ Eps)|].
    exists (Chunks.yielded evs), u. split; [exact Ep|]. reflexivity.
Qed.

Lemma send_file_returned_witness :
  Send.send_file "a.msz" 10 4 Fixtures.env_received
    = Send.SendReturned (mkUploadResponse "id" "a.msz" "out/a.msz" DONE 2) /\
  is_terminal DONE = true.
Proof.
  assert (H : Send.send_file "a.msz" 10 4 Fixtures.env_received
                = Send.SendReturned (mkUploadResponse "id" "a.msz" "out/a.msz" DONE 2))
    by reflexivity.
  split; [exact H|].
  exact (proj1 (send_file_returned "a.msz" 10 4 Fixtures.env_received _ H)).
Defined.



Lemma submit_all_inl (env : Batch.BatchEnv) (file_paths : list string) :
  forall idx msg,
  Batch.submit_all env idx file_paths = inl msg <->
  exists pre f post, file_paths = pre ++ f :: post /\
    String.eqb (Resolve.lower (PyPath.suffix f)) ".msz" = true /\
    Batch.be_stat env f = inl msg /\
    Forall (fun p => String.eqb (Resolve.lower (PyPath.suffix p)) ".msz" = true ->
                     exists n, Batch.be_stat env p = inr n) pre.
Proof.
  induction file_paths as [|g fps IH]; intros idx msg; simpl.
  - split; [discriminate|]. intros (pre & f & post & H & _). destruct pre; discriminate.
  - destruct (String.eqb (Resolve.lower (PyPath.suffix g)) ".msz") eqn:Eg.
    + destruct (Batch.be_stat env g) as [m|n] eqn:Es.
      * split.
        -- intros H. injection H as <-. exists [], g, fps. repeat split; auto.
        -- intros (pre & f & post & H & Hf & Hs & Hpre).
           destruct pre as [|p pre]; simpl in H; injection H as -> H.
           ++ congruence.
           ++ inversion Hpre as [|? ? Hp _]. destruct (Hp Eg) as [n Hn]. congruence.
      * destruct (Batch.submit_all env (S idx) fps) as [m|fs] eqn:Hr.
        -- split; intros H.
           ++ injection H as <-. apply (IH (S idx)) in Hr.
              destruct Hr as (pre & f & post & H1 & H2 & H3 & H4).
              exists (g :: pre), f, post. rewrite H1. repeat split; auto.
              constructor; [intros _; exists n; exact Es|exact H4].
           ++ destruct H as (pre' & f' & post' & H & Hf & Hs & Hpre).
              destruct pre' as [|p pre']; simpl in H; injection H as -> H; [congruence|].
              assert (Hr2 : Batch.submit_all env (S idx) fps = inl msg).
              { apply (IH (S idx)). exists pre', f', post'. inversion Hpre. auto. }
              congruence.
        -- split; [discriminate|]. intros (pre & f & post & H & Hf & Hs & Hpre).
           destruct pre as [|p pre]; simpl in H; injection H as -> H; [congruence|].
           assert (Hr2 : Batch.submit_all env (S idx) fps = inl msg).
           { apply (IH (S idx)). exists pre, f, post. inversion Hpre. auto. }
           congruence.
    + destruct (Batch.submit_all env (S idx) fps) as [m|fs] eqn:Hr.
      * split.
        -- intros H. injection H as <-. apply (IH (S idx)) in Hr.
           destruct Hr as (pre & f & post & H1 & H2 & H3 & H4).
           exists (g :: pre), f, post. rewrite H1. repeat split; auto.
           constructor; [intros E; congruence|exact H4].
        -- intros (pre & f & post & H & Hf & Hs & Hpre).
           destruct pre as [|p pre]; simpl in H; injection H as -> H; [congruence|].
           assert (Hr2 : Batch.submit_all env (S idx) fps = inl msg).
           { apply (IH (S idx)). exists pre, f, post. inversion Hpre. auto. }
           congruence.
      * split; [discriminate|]. intros (pre & f & post & H & Hf & Hs & Hpre).
        destruct pre as [|p pre]; simpl in H; injection H as -> H; [congruence|].
        assert (Hr2 : Batch.submit_all env (S idx) fps = inl msg).
        { apply (IH (S idx)). exists pre, f, post. inversion Hpre. auto. }
        congruence.
Qed.

Lemma send_batch_pool_ok (file_paths : list string) (parallel : Z) :
  0 < parallel -> file_paths <> [] ->
  Batch.pool_ok (Z.min parallel (Z.of_nat (length file_paths))) = inr tt.
Proof.
  intros Hp Hn. unfold Batch.pool_ok.
  destruct file_paths as [|f fps]; [contradiction|]. simpl length.
  destruct (Z.leb_spec (Z.min parallel (Z.of_nat (S (length fps)))) 0); [lia|reflexivity].
Qed.




